(** * The pack command of the extension packager (src/cli/pack.ts)

    A shallow embedding of [formatFileSize], [sanitizeNameForFilename] and
    [packExtension], and the properties of the packaging pipeline that the
    specification states about them. *)

From Stdlib Require Import ZArith NArith List String Ascii Bool Lia.
From Stdlib Require Import Permutation Sorted.
Import ListNotations.

Set Implicit Arguments.
Local Open Scope Z_scope.

(** ** JavaScript values *)

(** A JavaScript string is a sequence of UTF-16 code units. *)
Definition jsstring := list N.

(** A byte buffer ([Uint8Array], [Buffer]). *)
Definition bytes := list N.

(** String literals of the source, one code unit per character. *)
Definition js (s : string) : jsstring :=
  map N_of_ascii (list_ascii_of_string s).

Definition jsstring_eqb (a b : jsstring) : bool :=
  if list_eq_dec N.eq_dec a b then true else false.

Fixpoint uint_units (d : Decimal.uint) : jsstring :=
  match d with
  | Decimal.Nil => []
  | Decimal.D0 r => 48%N :: uint_units r
  | Decimal.D1 r => 49%N :: uint_units r
  | Decimal.D2 r => 50%N :: uint_units r
  | Decimal.D3 r => 51%N :: uint_units r
  | Decimal.D4 r => 52%N :: uint_units r
  | Decimal.D5 r => 53%N :: uint_units r
  | Decimal.D6 r => 54%N :: uint_units r
  | Decimal.D7 r => 55%N :: uint_units r
  | Decimal.D8 r => 56%N :: uint_units r
  | Decimal.D9 r => 57%N :: uint_units r
  end.

(** Decimal digits of a natural number, most significant first. *)
Definition decimal (n : N) : jsstring := uint_units (N.to_uint n).

(** [`${n}`] for a number holding an integer: the byte counts of this
    program are buffer lengths and sums of them. *)
Definition numberToString (z : Z) : jsstring :=
  if z <? 0 then js "-" ++ decimal (Z.to_N (- z)) else decimal (Z.to_N z).

(** [(num / den).toFixed(1)] for a non-negative quotient below [10^21]
    that the floating-point division computes exactly: here [den] is a
    power of two and [num] a byte count, an integer below [2^53]. It is the
    integer [t] nearest to ten times the quotient, the larger one on a tie,
    printed as its tens, a point and its last digit. From [10^21] on
    [toFixed] switches to the exponent notation, which is outside this
    embedding; no buffer length comes near it. *)
Definition toFixed1 (num den : Z) : jsstring :=
  let t := (20 * num + den) / (2 * den) in
  decimal (Z.to_N (t / 10)) ++ js "." ++ decimal (Z.to_N (t mod 10)).

(** [String.prototype.padStart(n)] with the default filler, a space. *)
Definition padStart (n : nat) (s : jsstring) : jsstring :=
  repeat 32%N (n - List.length s) ++ s.

(** ** formatFileSize (pack.ts, lines 25-33) *)

(** The byte counts of the program are lengths of buffers and sums of
    them: integers below [2^53], which a number holds exactly. *)
Definition byteCountLimit : Z := 9007199254740992.

Definition formatFileSize (bytes : Z) : jsstring :=
  if bytes <? 1024 then
    numberToString bytes ++ js "B"
  else if bytes <? 1024 * 1024 then
    toFixed1 bytes 1024 ++ js "kB"
  else
    toFixed1 bytes (1024 * 1024) ++ js "MB".

(** ** sanitizeNameForFilename (pack.ts, lines 35-45) *)

Definition HYPHEN : N := 45%N.

Definition isHyphen (c : N) : bool := (c =? HYPHEN)%N.

(** The class [\s] of a JavaScript regular expression. *)
Definition isWhitespace (c : N) : bool :=
  ((9 <=? c) && (c <=? 13) || (c =? 32) || (c =? 160) || (c =? 5760)
   || (8192 <=? c) && (c <=? 8202) || (c =? 8232) || (c =? 8233)
   || (c =? 8239) || (c =? 8287) || (c =? 12288) || (c =? 65279))%N.

(** The class [[a-z0-9-_.]], whose complement the sanitizer removes. *)
Definition isAllowed (c : N) : bool :=
  ((97 <=? c) && (c <=? 122) || (48 <=? c) && (c <=? 57)
   || (c =? 45) || (c =? 95) || (c =? 46))%N.

Definition isAscii (c : N) : bool := (c <? 128)%N.

Definition asciiLower (c : N) : N :=
  if ((65 <=? c) && (c <=? 90))%N then (c + 32)%N else c.

Section Sanitize.

(** [String.prototype.toLowerCase] on a string that has a code unit
    outside ASCII follows the Unicode case mapping of the engine, which
    stays a parameter. *)
Variable unicodeLower : jsstring -> jsstring.

Definition toLowerCase (s : jsstring) : jsstring :=
  if forallb isAscii s then map asciiLower s else unicodeLower s.

(** [.replace(/\s+/g, "-")]: every maximal run of whitespace becomes one
    hyphen. *)
Fixpoint replaceWhitespaceRuns (s : jsstring) : jsstring :=
  match s with
  | [] => []
  | c :: r =>
      if isWhitespace c then
        match r with
        | d :: _ =>
            if isWhitespace d then replaceWhitespaceRuns r
            else HYPHEN :: replaceWhitespaceRuns r
        | [] => [HYPHEN]
        end
      else c :: replaceWhitespaceRuns r
  end.

(** [.replace(/[^a-z0-9-_.]/g, "")]. *)
Definition stripDisallowed (s : jsstring) : jsstring := filter isAllowed s.

(** [.replace(/-+/g, "-")]: every maximal run of hyphens becomes one. *)
Fixpoint collapseHyphens (s : jsstring) : jsstring :=
  match s with
  | [] => []
  | c :: r =>
      if isHyphen c then
        match r with
        | d :: _ =>
            if isHyphen d then collapseHyphens r
            else c :: collapseHyphens r
        | [] => [c]
        end
      else c :: collapseHyphens r
  end.

Fixpoint dropLeadingHyphens (s : jsstring) : jsstring :=
  match s with
  | c :: r => if isHyphen c then dropLeadingHyphens r else s
  | [] => []
  end.

Definition dropTrailingHyphens (s : jsstring) : jsstring :=
  rev (dropLeadingHyphens (rev s)).

(** [.replace(/^-+|-+$/g, "")]. *)
Definition trimHyphens (s : jsstring) : jsstring :=
  dropTrailingHyphens (dropLeadingHyphens s).

(** [.substring(0, n)]. *)
Definition substring0 (n : nat) (s : jsstring) : jsstring := firstn n s.

Definition sanitizeNameForFilename (name : jsstring) : jsstring :=
  substring0 100
    (trimHyphens
       (collapseHyphens
          (stripDisallowed
             (replaceWhitespaceRuns
                (toLowerCase name))))).

(** The name as it is before the last step, the truncation. *)
Definition beforeTruncation (name : jsstring) : jsstring :=
  trimHyphens
    (collapseHyphens
       (stripDisallowed (replaceWhitespaceRuns (toLowerCase name)))).

(** No two hyphens side by side. *)
Fixpoint noDoubleHyphen (s : jsstring) : bool :=
  match s with
  | c :: (d :: _) as r => negb (isHyphen c && isHyphen d) && noDoubleHyphen r
  | _ => true
  end.

End Sanitize.

(** ** Data of the pipeline *)

(** What a [throw] carries: an [Error] object with its message, or any
    other value. *)
Inductive thrown : Type :=
| ErrorObject (message : jsstring)
| OtherValue.

(** The outcome of a call that can throw. *)
Inductive result (A : Type) : Type :=
| Ok (a : A)
| Throw (e : thrown).
Arguments Ok {A} a.
Arguments Throw {A} e.

(** The content of a discovered file: a string or a byte buffer. *)
Inductive Content : Type :=
| TextContent (s : jsstring)
| BinaryContent (b : bytes).

(** The [files] object of the discovery, as [Object.entries] lists it. *)
Definition FileTable := list (jsstring * Content).

(** A [Date]: its time value, milliseconds since the epoch. *)
Definition Date := Z.

(** The options object handed to [zipSync]. *)
Record ZipOptions : Type := mkZipOptions {
  level : Z;
  mtime : Date
}.

(** The fields of the parsed manifest that the pipeline reads. *)
Record Manifest : Type := mkManifest {
  name : jsstring;
  version : jsstring
}.

Record PackOptions : Type := mkPackOptions {
  extensionPath : jsstring;
  outputPath : option jsstring;
  silent : option bool
}.

(** The library functions the module imports, which are no part of the
    repository: [path] (its functions read the working directory, the
    first argument here), [String.prototype.localeCompare], the Unicode part
    of [toLowerCase], [zipSync] of fflate and the SHA-1 digest in hex. *)
Class Host : Type := mkHost {
  unicodeLower : jsstring -> jsstring;
  sep : N;
  resolve : jsstring -> jsstring -> jsstring;
  join : jsstring -> jsstring -> jsstring;
  basename : jsstring -> jsstring;
  relative : jsstring -> jsstring -> jsstring -> jsstring;
  localeCompare : jsstring -> jsstring -> Z;
  zipSync : FileTable -> ZipOptions -> result bytes;
  sha1Hex : bytes -> jsstring
}.

(** The machine at the time of one invocation: working directory, file
    system, user at the prompt, clock, and the collaborators of the
    repository that are imported from other modules ([initExtension],
    [validateManifest], the manifest schema, [readDxtIgnorePatterns],
    [getAllFilesWithCount]). Each field is the outcome of the call. *)
Record World : Type := mkWorld {
  cwd : jsstring;
  existsSync : jsstring -> bool;
  isDirectory : jsstring -> bool;
  confirm : jsstring -> result bool;
  initExtension : jsstring -> result bool;
  validateManifest : jsstring -> bool;
  readManifest : jsstring -> result Manifest;
  mkdirSync : jsstring -> result unit;
  readDxtIgnorePatterns : jsstring -> result (list jsstring);
  getAllFilesWithCount :
    jsstring -> jsstring -> list jsstring -> result (FileTable * Z);
  now : Date;
  writeFileSync : jsstring -> bytes -> result unit
}.

(** What an invocation does to the outside, in order. *)
Inductive Event : Type :=
| LogLine (line : jsstring)
| ErrorLine (line : jsstring)
| ConfirmPrompt (message : jsstring)
| InitExtension (path : jsstring)
| MkdirSync (path : jsstring) (recursive : bool)
| ReadIgnore (root : jsstring)
| Discover (root : jsstring) (patterns : list jsstring)
| ZipSync (files : FileTable) (opts : ZipOptions)
| WriteFileSync (path : jsstring) (data : bytes).

(** ** A monad for the body of an async function: a trace of events and
    either a value, an early [return] or a [throw]. *)

Inductive completion (R A : Type) : Type :=
| Normal (a : A)
| Returned (r : R)
| Thrown (e : thrown).
Arguments Normal {R A} a.
Arguments Returned {R A} r.
Arguments Thrown {R A} e.

Definition M (R A : Type) : Type := (list Event * completion R A)%type.

Definition ret {R A} (a : A) : M R A := ([], Normal a).

Definition bind {R A B} (m : M R A) (f : A -> M R B) : M R B :=
  match m with
  | (t, Normal a) => let (t', c) := f a in (t ++ t', c)
  | (t, Returned r) => (t, Returned r)
  | (t, Thrown e) => (t, Thrown e)
  end.

Definition return_ {R A} (r : R) : M R A := ([], Returned r).

Definition emit {R} (e : Event) : M R unit := ([e], Normal tt).

(** A call whose outcome the world gives: the event, then the value or
    the exception. *)
Definition call {R A} (e : Event) (r : result A) : M R A :=
  match r with
  | Ok a => ([e], Normal a)
  | Throw x => ([e], Thrown x)
  end.

(** [try { body } catch (error) { handler }]. *)
Definition tryCatch {R A} (body : M R A) (handler : thrown -> M R A) : M R A :=
  match body with
  | (t, Thrown e) => let (t', c) := handler e in (t ++ t', c)
  | other => other
  end.

Fixpoint forEach {R A} (f : A -> M R unit) (l : list A) : M R unit :=
  match l with
  | [] => ret tt
  | x :: r => bind (f x) (fun _ => forEach f r)
  end.

(** The promise an async function returns: fulfilled with the value
    returned, or rejected. *)
Definition runAsync {R} (m : M R R) : list Event * result R :=
  match m with
  | (t, Normal r) => (t, Ok r)
  | (t, Returned r) => (t, Ok r)
  | (t, Thrown e) => (t, Throw e)
  end.

Declare Scope pack_scope.
Delimit Scope pack_scope with pack.
Notation "x <- m ;; k" := (bind m (fun x => k))
  (at level 100, m at next level, right associativity) : pack_scope.
Notation "m ;; k" := (bind m (fun _ => k))
  (at level 100, right associativity) : pack_scope.

(** ** Helpers of the report *)

Definition isHighSurrogate (c : N) : bool := ((55296 <=? c) && (c <=? 56319))%N.
Definition isLowSurrogate (c : N) : bool := ((56320 <=? c) && (c <=? 57343))%N.

(** [Buffer.byteLength(s, "utf8")]: one to three bytes per code unit, four
    for a surrogate pair, three for a lone surrogate. *)
Fixpoint utf8ByteLength (s : jsstring) : Z :=
  match s with
  | [] => 0
  | c :: r =>
      if (c <? 128)%N then 1 + utf8ByteLength r
      else if (c <? 2048)%N then 2 + utf8ByteLength r
      else if isHighSurrogate c then
        match r with
        | d :: r' =>
            if isLowSurrogate d then 4 + utf8ByteLength r'
            else 3 + utf8ByteLength r
        | [] => 3
        end
      else 3 + utf8ByteLength r
  end.

(** [s.split(sep)] for a separator of one code unit. *)
Fixpoint split (sepr : N) (s : jsstring) : list jsstring :=
  match s with
  | [] => [[]]
  | c :: r =>
      if (c =? sepr)%N then [] :: split sepr r
      else
        match split sepr r with
        | p :: ps => (c :: p) :: ps
        | [] => [[c]]
        end
  end.

(** [parts.join(d)]. *)
Fixpoint joinWith (d : jsstring) (parts : list jsstring) : jsstring :=
  match parts with
  | [] => []
  | [p] => p
  | p :: r => p ++ d ++ joinWith d r
  end.

(** [Array.prototype.sort(compare)], a stable sort: an element goes before
    the first one of the sorted rest that it does not compare greater than. *)
Section Sort.
Variable A : Type.
Variable compare : A -> A -> Z.

Fixpoint insertSorted (x : A) (l : list A) : list A :=
  match l with
  | [] => [x]
  | y :: r => if compare x y <=? 0 then x :: l else y :: insertSorted x r
  end.

Definition sortWith (l : list A) : list A := fold_right insertSorted [] l.
End Sort.

(** A value of the [directoryGroups] map. *)
Record Group : Type := mkGroup {
  files : list jsstring;
  totalSize : Z
}.

(** An element of [shallowFiles]. *)
Record Shallow : Type := mkShallow {
  path : jsstring;
  size : Z
}.

(** A [Map] with string keys, in insertion order. *)
Section StringMap.
Variable V : Type.

Definition StringMap := list (jsstring * V).

Definition mapHas (k : jsstring) (m : StringMap) : bool :=
  existsb (fun kv => jsstring_eqb k (fst kv)) m.

Fixpoint mapGet (k : jsstring) (m : StringMap) : option V :=
  match m with
  | [] => None
  | (k', v) :: r => if jsstring_eqb k k' then Some v else mapGet k r
  end.

(** [m.set(k, v)]: a new key goes last, a present key keeps its place. *)
Fixpoint mapSet (k : jsstring) (v : V) (m : StringMap) : StringMap :=
  match m with
  | [] => [(k, v)]
  | (k', v') :: r =>
      if jsstring_eqb k k' then (k', v) :: r else (k', v') :: mapSet k v r
  end.

(** Mutation of the object stored under [k]. *)
Fixpoint mapModify (k : jsstring) (f : V -> V) (m : StringMap) : StringMap :=
  match m with
  | [] => []
  | (k', v') :: r =>
      if jsstring_eqb k k' then (k', f v') :: r
      else (k', v') :: mapModify k f r
  end.
End StringMap.

(** The state of the grouping loop. *)
Record Grouping : Type := mkGrouping {
  totalUnpackedSize : Z;
  directoryGroups : StringMap Group;
  shallowFiles : list Shallow
}.

(** A line of the file listing before it is printed: a file with its
    size, or a directory group with its size and number of files. *)
Inductive Row : Type :=
| FileRow (sz : Z) (p : jsstring)
| DirRow (sz : Z) (dir : jsstring) (count : nat).

Definition rowPath (r : Row) : jsstring :=
  match r with
  | FileRow _ p => p
  | DirRow _ dir _ => dir
  end.

Definition renderRow (r : Row) : jsstring :=
  match r with
  | FileRow sz p => padStart 8 (formatFileSize sz) ++ js " " ++ p
  | DirRow sz dir count =>
      padStart 8 (formatFileSize sz) ++ js " " ++ dir ++ js "/ [and "
      ++ numberToString (Z.of_nat count) ++ js " more files]"
  end.

Definition contentSize (content : Content) : Z :=
  match content with
  | TextContent s => utf8ByteLength s
  | BinaryContent b => Z.of_nat (List.length b)
  end.

(** The sum of the sizes of some entries. *)
Definition sumSizes (fileEntries : FileTable) : Z :=
  fold_right (fun entry acc => contentSize (snd entry) + acc) 0 fileEntries.

(** The strings of a list, each once, in the order of first occurrence. *)
Definition distinct (l : list jsstring) : list jsstring :=
  fold_left
    (fun seen k => if existsb (jsstring_eqb k) seen then seen else seen ++ [k])
    l [].

(** The kinds of events. *)
Definition isWrite (e : Event) : bool :=
  match e with WriteFileSync _ _ => true | _ => false end.
Definition isZip (e : Event) : bool :=
  match e with ZipSync _ _ => true | _ => false end.
Definition isDiscovery (e : Event) : bool :=
  match e with ReadIgnore _ | Discover _ _ => true | _ => false end.
Definition isInit (e : Event) : bool :=
  match e with InitExtension _ => true | _ => false end.

(** ** packExtension (pack.ts, lines 47-222) *)

Section Pack.

Context {H : Host}.
Variable w : World.

Local Open Scope pack_scope.

Definition log {R} (line : jsstring) : M R unit := emit (LogLine line).
Definition logError {R} (line : jsstring) : M R unit := emit (ErrorLine line).

(** A call that leaves no trace of its own. *)
Definition quiet {R A} (r : result A) : M R A :=
  match r with
  | Ok a => ret a
  | Throw e => ([], Thrown e)
  end.

(** Line 134: the entries sorted by [a.localeCompare(b)] on their keys. *)
Definition sortEntries (fileEntries : FileTable) : FileTable :=
  sortWith (fun a b => localeCompare (fst a) (fst b)) fileEntries.

(** Lines 143-165: one turn of the loop over the sorted entries. *)
Definition groupEntry (resolvedPath : jsstring) (g : Grouping)
    (entry : jsstring * Content) : Grouping :=
  let (filePath, content) := entry in
  let relPath := relative (cwd w) resolvedPath filePath in
  let size := contentSize content in
  let total := totalUnpackedSize g + size in
  let parts := split sep relPath in
  if (3 <? List.length parts)%nat then
    let groupKey := joinWith (js "/") (firstn 3 parts) in
    let groups :=
      if negb (mapHas groupKey (directoryGroups g))
      then mapSet groupKey (mkGroup [] 0) (directoryGroups g)
      else directoryGroups g in
    mkGrouping total
      (mapModify groupKey
         (fun group =>
            mkGroup (files group ++ [relPath]) (totalSize group + size))
         groups)
      (shallowFiles g)
  else
    mkGrouping total (directoryGroups g)
      (shallowFiles g ++ [mkShallow relPath size]).

Definition groupEntries (resolvedPath : jsstring) (fileEntries : FileTable)
    : Grouping :=
  fold_left (groupEntry resolvedPath) fileEntries (mkGrouping 0 [] []).

(** Lines 168-170. *)
Definition shallowRow (s : Shallow) : Row := FileRow (size s) (path s).

(** Lines 173-185. *)
Definition groupRow (kv : jsstring * Group) : Row :=
  let (dir, group) := kv in
  if (List.length (files group) =? 1)%nat then
    FileRow (totalSize group) (nth 0 (files group) [])
  else
    DirRow (totalSize group) dir (List.length (files group)).

(** The file listing: the shallow files first, then the groups. *)
Definition listingRows (g : Grouping) : list Row :=
  map shallowRow (shallowFiles g) ++ map groupRow (directoryGroups g).

(** The listing of a discovery result. *)
Definition fileListing (resolvedPath : jsstring) (discovered : FileTable)
    : list Row :=
  listingRows (groupEntries resolvedPath (sortEntries discovered)).

(** What the loop computes from one entry. *)
Definition relPathOf (resolvedPath : jsstring) (entry : jsstring * Content)
    : jsstring :=
  relative (cwd w) resolvedPath (fst entry).

Definition segmentsOf (resolvedPath : jsstring)
    (entry : jsstring * Content) : list jsstring :=
  split sep (relPathOf resolvedPath entry).

Definition isDeep (resolvedPath : jsstring) (entry : jsstring * Content)
    : bool :=
  (3 <? List.length (segmentsOf resolvedPath entry))%nat.

Definition groupKeyOf (resolvedPath : jsstring)
    (entry : jsstring * Content) : jsstring :=
  joinWith (js "/") (firstn 3 (segmentsOf resolvedPath entry)).

(** The entries of the group [key]: those of more than three segments
    whose first three segments make up [key]. *)
Definition membersOf (resolvedPath key : jsstring) (fileEntries : FileTable)
    : FileTable :=
  filter
    (fun entry =>
       isDeep resolvedPath entry
       && jsstring_eqb key (groupKeyOf resolvedPath entry))
    fileEntries.

Definition shallowOf (resolvedPath : jsstring) (fileEntries : FileTable)
    : FileTable :=
  filter (fun entry => negb (isDeep resolvedPath entry)) fileEntries.

Definition groupOf (resolvedPath key : jsstring) (fileEntries : FileTable)
    : Group :=
  mkGroup
    (map (relPathOf resolvedPath) (membersOf resolvedPath key fileEntries))
    (sumSizes (membersOf resolvedPath key fileEntries)).

(** The keys of the groups, each once, in the order of their first
    entry. *)
Definition groupKeys (resolvedPath : jsstring) (fileEntries : FileTable)
    : list jsstring :=
  distinct
    (map (groupKeyOf resolvedPath)
       (filter (isDeep resolvedPath) fileEntries)).

(** Lines 103-107. An empty string is falsy, as [undefined] is. *)
Definition finalOutputPathOf (resolvedPath : jsstring) (o : PackOptions)
    : jsstring :=
  let extensionName := basename resolvedPath in
  match outputPath o with
  | Some p =>
      match p with
      | [] => resolve (cwd w) (extensionName ++ js ".dxt")
      | _ => resolve (cwd w) p
      end
  | None => resolve (cwd w) (extensionName ++ js ".dxt")
  end.

Definition confirmMessage : jsstring :=
  js "Would you like to create a manifest.json file?".

(** The package emoji of line 126, a surrogate pair. *)
Definition packageHeader (manifest : Manifest) : jsstring :=
  [10; 55357; 56550; 32; 32]%N ++ name manifest ++ js "@" ++ version manifest.

(** Lines 115-123: what the discovery of the invocation yields. *)
Definition discovery (resolvedPath : jsstring) : result (FileTable * Z) :=
  match readDxtIgnorePatterns w resolvedPath with
  | Ok patterns =>
      getAllFilesWithCount w resolvedPath resolvedPath patterns
  | Throw e => Throw e
  end.

(** Lines 113-213, the body of the [try]. *)
Definition archiveStage (resolvedPath finalOutputPath : jsstring)
    (manifest : Manifest) : M bool bool :=
  dxtIgnorePatterns <-
    call (ReadIgnore resolvedPath) (readDxtIgnorePatterns w resolvedPath) ;;
  discovered <-
    call (Discover resolvedPath dxtIgnorePatterns)
      (getAllFilesWithCount w resolvedPath resolvedPath dxtIgnorePatterns) ;;
  let (discoveredFiles, ignoredCount) := discovered in
  log (packageHeader manifest) ;;
  log (js "Archive Contents") ;;
  let fileEntries := sortEntries discoveredFiles in
  let grouping := groupEntries resolvedPath fileEntries in
  forEach (fun row => log (renderRow row)) (listingRows grouping) ;;
  let zipOptions := mkZipOptions 9 (now w) in
  zipData <-
    call (ZipSync discoveredFiles zipOptions)
      (zipSync discoveredFiles zipOptions) ;;
  call (WriteFileSync finalOutputPath zipData)
    (writeFileSync w finalOutputPath zipData) ;;
  let shasum := sha1Hex zipData in
  let sanitizedName := sanitizeNameForFilename unicodeLower (name manifest) in
  let archiveName :=
    sanitizedName ++ js "-" ++ version manifest ++ js ".dxt" in
  log ([10%N] ++ js "Archive Details") ;;
  log (js "name: " ++ name manifest) ;;
  log (js "version: " ++ version manifest) ;;
  log (js "filename: " ++ archiveName) ;;
  log (js "package size: "
       ++ formatFileSize (Z.of_nat (List.length zipData))) ;;
  log (js "unpacked size: "
       ++ formatFileSize (totalUnpackedSize grouping)) ;;
  log (js "shasum: " ++ shasum) ;;
  log (js "total files: "
       ++ numberToString (Z.of_nat (List.length fileEntries))) ;;
  log (js "ignored (.dxtignore) files: " ++ numberToString ignoredCount) ;;
  log ([10%N] ++ js "Output: " ++ finalOutputPath) ;;
  return_ true.

(** Lines 214-221, the [catch]. *)
Definition archiveError (error : thrown) : M bool bool :=
  match error with
  | ErrorObject message =>
      logError (js "ERROR: Archive error: " ++ message)
  | OtherValue => logError (js "ERROR: Unknown archive error occurred")
  end ;;
  return_ false.

(** Lines 95-101. *)
Definition manifestError (error : thrown) : M bool Manifest :=
  logError (js "ERROR: Failed to parse manifest.json") ;;
  match error with
  | ErrorObject message => logError (js "  " ++ message)
  | OtherValue => ret tt
  end ;;
  return_ false.

Definition packBody (o : PackOptions) : M bool bool :=
  let resolvedPath := resolve (cwd w) (extensionPath o) in
  (if negb (existsSync w resolvedPath) || negb (isDirectory w resolvedPath)
   then
     logError (js "ERROR: Directory not found: " ++ extensionPath o) ;;
     return_ false
   else ret tt) ;;
  let manifestPath := join resolvedPath (js "manifest.json") in
  (if negb (existsSync w manifestPath) then
     log (js "No manifest.json found in " ++ extensionPath o) ;;
     shouldInit <-
       call (ConfirmPrompt confirmMessage) (confirm w confirmMessage) ;;
     if shouldInit : bool then
       success <-
         call (InitExtension (extensionPath o))
           (initExtension w (extensionPath o)) ;;
       if negb success then
         logError (js "ERROR: Failed to create manifest") ;;
         return_ false
       else ret tt
     else
       logError (js "ERROR: Cannot pack extension without manifest.json") ;;
       return_ false
   else ret tt) ;;
  log (js "Validating manifest...") ;;
  (if negb (validateManifest w manifestPath) then
     logError (js "ERROR: Cannot pack extension with invalid manifest") ;;
     return_ false
   else ret tt) ;;
  manifest <- tryCatch (quiet (readManifest w manifestPath)) manifestError ;;
  let finalOutputPath := finalOutputPathOf resolvedPath o in
  let outputDir := join finalOutputPath (js "..") in
  call (MkdirSync outputDir true) (mkdirSync w outputDir) ;;
  tryCatch (archiveStage resolvedPath finalOutputPath manifest) archiveError.

(** The promise of [packExtension] with what it did on the way. *)
Definition packExtension (o : PackOptions) : list Event * result bool :=
  runAsync (packBody o).

End Pack.

(** The lexicographic comparison of two strings by code units: negative,
    zero or positive. *)
Fixpoint compareUnits (a b : jsstring) : Z :=
  match a, b with
  | [], [] => 0
  | [], _ :: _ => -1
  | _ :: _, [] => 1
  | x :: a', y :: b' =>
      if (x <? y)%N then -1
      else if (y <? x)%N then 1
      else compareUnits a' b'
  end.

(** [a] is at most [b] in the lexicographic order of code units. *)
Definition lexLe (a b : jsstring) : Prop := compareUnits a b <= 0.

(** ** A host to run the model on: POSIX paths, code-unit comparison,
    a ZIP writer and SHA-1

    The theorems that take a [Host] hold for every one; this one gives the
    closed examples something to compute with. Its path functions follow
    Node's [path] module on POSIX. Its ZIP writer and its comparison stand
    in for fflate and for [localeCompare]: no statement below is about the
    bytes or the digest of an archive beyond the time in its first header,
    which a ZIP container holds at that place whoever writes it. *)

Module Posix.

Definition SLASH : N := 47%N.
Definition DOT : jsstring := [46%N].
Definition DOTDOT : jsstring := [46%N; 46%N].

(** The segments of a path with ["."] and empty segments dropped and
    [".."] applied; [stack] holds the segments kept so far, last first.
    Above the root [".."] is dropped; above a relative start it stays. *)
Fixpoint normalizeParts (absolute : bool) (parts stack : list jsstring)
    : list jsstring :=
  match parts with
  | [] => rev stack
  | p :: r =>
      if jsstring_eqb p [] || jsstring_eqb p DOT then
        normalizeParts absolute r stack
      else if jsstring_eqb p DOTDOT then
        match stack with
        | top :: below =>
            if jsstring_eqb top DOTDOT
            then normalizeParts absolute r (p :: stack)
            else normalizeParts absolute r below
        | [] =>
            if absolute then normalizeParts absolute r []
            else normalizeParts absolute r [p]
        end
      else normalizeParts absolute r (p :: stack)
  end.

Definition isAbsolute (p : jsstring) : bool :=
  match p with
  | c :: _ => (c =? SLASH)%N
  | [] => false
  end.

Definition segments (p : jsstring) : list jsstring :=
  normalizeParts true (split SLASH p) [].

(** [path.resolve(p)] in the working directory [dir], itself absolute. *)
Definition resolve (dir p : jsstring) : jsstring :=
  let full := if isAbsolute p then p else dir ++ [SLASH] ++ p in
  SLASH :: joinWith [SLASH] (segments full).

Definition endsWithSlash (p : jsstring) : bool :=
  match rev p with
  | c :: _ => (c =? SLASH)%N
  | [] => false
  end.

(** [path.join(a, b)]. *)
Definition join (a b : jsstring) : jsstring :=
  let joined :=
    match a, b with
    | [], _ => b
    | _, [] => a
    | _, _ => a ++ [SLASH] ++ b
    end in
  match joined with
  | [] => DOT
  | _ =>
      let absolute := isAbsolute joined in
      let body :=
        joinWith [SLASH] (normalizeParts absolute (split SLASH joined) []) in
      let body :=
        match body with
        | [] => if absolute then [] else DOT
        | _ => if endsWithSlash joined then body ++ [SLASH] else body
        end in
      if absolute then SLASH :: body else body
  end.

(** [path.basename(p)]: the last segment, trailing slashes apart. *)
Definition basename (p : jsstring) : jsstring :=
  last (filter (fun seg => negb (jsstring_eqb seg [])) (split SLASH p)) [].

Fixpoint dropCommon (a b : list jsstring) : list jsstring * list jsstring :=
  match a, b with
  | x :: a', y :: b' =>
      if jsstring_eqb x y then dropCommon a' b' else (a, b)
  | _, _ => (a, b)
  end.

(** [path.relative(from, to)]: both resolved in [dir], then one [".."]
    for each segment of [from] below the common directory, then the rest
    of [to]. *)
Definition relative (dir from to : jsstring) : jsstring :=
  let (up, down) :=
    dropCommon (segments (resolve dir from)) (segments (resolve dir to)) in
  joinWith [SLASH] (map (fun _ => DOTDOT) up ++ down).

End Posix.

(** The UTF-8 encoding of a string, a lone surrogate as U+FFFD. *)
Fixpoint encodeUtf8 (s : jsstring) : bytes :=
  match s with
  | [] => []
  | c :: r =>
      (if c <? 128 then c :: encodeUtf8 r
       else if c <? 2048 then
         192 + c / 64 :: 128 + c mod 64 :: encodeUtf8 r
       else if isHighSurrogate c then
         match r with
         | d :: r' =>
             if isLowSurrogate d then
               let cp := 65536 + (c - 55296) * 1024 + (d - 56320) in
               240 + cp / 262144 :: 128 + (cp / 4096) mod 64
               :: 128 + (cp / 64) mod 64 :: 128 + cp mod 64 :: encodeUtf8 r'
             else 239 :: 191 :: 189 :: encodeUtf8 r
         | [] => [239; 191; 189]
         end
       else if isLowSurrogate c then 239 :: 191 :: 189 :: encodeUtf8 r
       else
         224 + c / 4096 :: 128 + (c / 64) mod 64 :: 128 + c mod 64
         :: encodeUtf8 r)%N
  end.

(** [n] bytes of [v], least significant first. *)
Fixpoint littleEndian (n : nat) (v : N) : bytes :=
  match n with
  | O => []
  | S k => (v mod 256)%N :: littleEndian k (v / 256)%N
  end.

(** [n] bytes of [v], most significant first. *)
Definition bigEndian (n : nat) (v : N) : bytes := rev (littleEndian n v).

(** A ZIP container with one deflate stream of stored blocks per entry:
    local file headers with their data, the central directory, and the end
    record. The modification time goes into every header in MS-DOS form,
    read here in UTC. This is not fflate's [zipSync]: it stores where
    fflate compresses at the level given, and it takes byte buffers only. *)
Module Zip.

Local Open Scope N_scope.

Definition crcStep (c : N) : N :=
  if N.testbit c 0 then N.lxor (N.shiftr c 1) 3988292384 else N.shiftr c 1.

Definition crcByte (c b : N) : N :=
  let c := N.lxor c b in
  crcStep (crcStep (crcStep (crcStep (crcStep (crcStep (crcStep (crcStep c))))))).

Definition crc32 (data : bytes) : N :=
  N.lxor (fold_left crcByte data 4294967295) 4294967295.

Fixpoint storedBlocks (fuel : nat) (data : bytes) : bytes :=
  match fuel with
  | O => []
  | S k =>
      let chunk := firstn (N.to_nat 65535) data in
      let rest := skipn (N.to_nat 65535) data in
      let len := N.of_nat (List.length chunk) in
      match rest with
      | [] => [1] ++ littleEndian 2 len ++ littleEndian 2 (65535 - len) ++ chunk
      | _ =>
          [0] ++ littleEndian 2 len ++ littleEndian 2 (65535 - len) ++ chunk
          ++ storedBlocks k rest
      end
  end.

Definition deflateStored (data : bytes) : bytes :=
  storedBlocks (S (List.length data)) data.

(** Year, month and day of a number of days since the epoch. *)
Definition civil (days : Z) : Z * Z * Z :=
  (let z := days + 719468 in
   let era := z / 146097 in
   let doe := z - era * 146097 in
   let yoe := (doe - doe / 1460 + doe / 36524 - doe / 146096) / 365 in
   let doy := doe - (365 * yoe + yoe / 4 - yoe / 100) in
   let mp := (5 * doy + 2) / 153 in
   let d := doy - (153 * mp + 2) / 5 + 1 in
   let m := if mp <? 10 then mp + 3 else mp - 9 in
   let y := yoe + era * 400 + (if m <=? 2 then 1 else 0) in
   (y, m, d))%Z.

(** The MS-DOS date and time of a time value, for the years 1980 to
    2099. *)
Definition dosDateTime (t : Date) : option N :=
  (let '(y, m, d) := civil (t / 86400000) in
   let secs := (t / 1000) mod 86400 in
   if (y <? 1980) || (2099 <? y) then None
   else
     Some (Z.to_N
             (((y - 1980) * 33554432) + m * 2097152 + d * 65536
              + (secs / 3600) * 2048 + ((secs / 60) mod 60) * 32
              + (secs mod 60) / 2)))%Z.

Record Entry : Type := mkEntry {
  entryName : bytes;
  entryUnicode : bool;
  entryCrc : N;
  entryData : bytes;
  entrySize : N;
  entryOffset : N
}.

Definition sizeN (b : bytes) : N := N.of_nat (List.length b).

(** What the local and the central header share. *)
Definition headerFields (dos : N) (e : Entry) : bytes :=
  [20; 0; 0; (if entryUnicode e then 8 else 0); 8; 0]
  ++ littleEndian 4 dos
  ++ littleEndian 4 (entryCrc e)
  ++ littleEndian 4 (sizeN (entryData e))
  ++ littleEndian 4 (entrySize e)
  ++ littleEndian 2 (sizeN (entryName e))
  ++ [0; 0].

Definition localRecord (dos : N) (e : Entry) : bytes :=
  [80; 75; 3; 4] ++ headerFields dos e ++ entryName e ++ entryData e.

Definition centralRecord (dos : N) (e : Entry) : bytes :=
  [80; 75; 1; 2; 20; 0] ++ headerFields dos e
  ++ [0; 0; 0; 0; 0; 0; 0; 0; 0; 0]
  ++ littleEndian 4 (entryOffset e) ++ entryName e.

Definition endRecord (count size offset : N) : bytes :=
  [80; 75; 5; 6; 0; 0; 0; 0]
  ++ littleEndian 2 count ++ littleEndian 2 count
  ++ littleEndian 4 size ++ littleEndian 4 offset ++ [0; 0].

Definition tooLong : thrown := ErrorObject (js "filename too long").
Definition invalidDate : thrown := ErrorObject (js "date not in range 1980-2099").
Definition notABuffer : thrown :=
  ErrorObject (js "Maximum call stack size exceeded").

(** The entries with their offsets; only byte buffers can be packed. *)
Fixpoint entries (offset : N) (table : FileTable) : result (list Entry) :=
  match table with
  | [] => Ok []
  | (key, TextContent _) :: _ => Throw notABuffer
  | (key, BinaryContent data) :: r =>
      let fn := encodeUtf8 key in
      if 65535 <? sizeN fn then Throw tooLong
      else
        let e :=
          mkEntry fn (negb (sizeN fn =? N.of_nat (List.length key)))
            (crc32 data) (deflateStored data) (sizeN data) offset in
        match entries (offset + 30 + sizeN fn + sizeN (entryData e)) r with
        | Ok es => Ok (e :: es)
        | Throw x => Throw x
        end
  end.

Definition zipSync (table : FileTable) (opts : ZipOptions) : result bytes :=
  match entries 0 table with
  | Throw x => Throw x
  | Ok [] => Ok (endRecord 0 0 0)
  | Ok es =>
      match dosDateTime (mtime opts) with
      | None => Throw invalidDate
      | Some dos =>
          let locals := flat_map (localRecord dos) es in
          let central := flat_map (centralRecord dos) es in
          Ok (locals ++ central
              ++ endRecord (N.of_nat (List.length es)) (sizeN central)
                   (sizeN locals))
      end
  end.

End Zip.

(** SHA-1 of a byte buffer, in hexadecimal. *)
Module Sha1.

Local Open Scope N_scope.

Definition mask32 (x : N) : N := x mod 4294967296.

Definition rotl (n x : N) : N :=
  mask32 (N.lor (N.shiftl x n) (N.shiftr x (32 - n))).

Definition pad (msg : bytes) : bytes :=
  let len := N.of_nat (List.length msg) in
  let zeros := N.to_nat ((119 - len mod 64) mod 64) in
  msg ++ [128] ++ repeat 0 zeros ++ bigEndian 8 (8 * len).

Fixpoint wordsOf (n : nat) (block : bytes) : list N :=
  match n, block with
  | S k, a :: b :: c :: d :: r =>
      ((a * 256 + b) * 256 + c) * 256 + d :: wordsOf k r
  | _, _ => []
  end.

(** The message schedule, latest word first. *)
Fixpoint extend (n : nat) (ws : list N) : list N :=
  match n with
  | O => ws
  | S k =>
      let x :=
        rotl 1 (N.lxor (N.lxor (nth 2 ws 0) (nth 7 ws 0))
                  (N.lxor (nth 13 ws 0) (nth 15 ws 0))) in
      extend k (x :: ws)
  end.

Definition state : Type := N * N * N * N * N.

Definition round (st : state) (iw : N * N) : state :=
  let '(a, b, c, d, e) := st in
  let (i, wi) := iw in
  let (f, k) :=
    if i <? 20 then
      (N.lor (N.land b c) (N.land (N.lxor b 4294967295) d), 1518500249)
    else if i <? 40 then (N.lxor (N.lxor b c) d, 1859775393)
    else if i <? 60 then
      (N.lor (N.lor (N.land b c) (N.land b d)) (N.land c d), 2400959708)
    else (N.lxor (N.lxor b c) d, 3395469782) in
  (mask32 (rotl 5 a + f + e + k + wi), a, rotl 30 b, c, d).

Fixpoint index (i : N) (l : list N) : list (N * N) :=
  match l with
  | [] => []
  | x :: r => (i, x) :: index (i + 1) r
  end.

Definition compress (st : state) (block : bytes) : state :=
  let ws := rev (extend 64 (rev (wordsOf 16 block))) in
  let '(a, b, c, d, e) := fold_left round (index 0 ws) st in
  let '(h0, h1, h2, h3, h4) := st in
  (mask32 (h0 + a), mask32 (h1 + b), mask32 (h2 + c), mask32 (h3 + d),
   mask32 (h4 + e)).

Fixpoint blocks (fuel : nat) (st : state) (msg : bytes) : state :=
  match fuel, msg with
  | S k, _ :: _ => blocks k (compress st (firstn 64 msg)) (skipn 64 msg)
  | _, _ => st
  end.

Definition hexDigit (d : N) : N := if d <? 10 then 48 + d else 87 + d.

Definition hexByte (b : N) : jsstring := [hexDigit (b / 16); hexDigit (b mod 16)].

Definition digestHex (data : bytes) : jsstring :=
  let padded := pad data in
  let '(h0, h1, h2, h3, h4) :=
    blocks (List.length padded)
      (1732584193, 4023233417, 2562383102, 271733878, 3285377520) padded in
  flat_map hexByte
    (bigEndian 4 h0 ++ bigEndian 4 h1 ++ bigEndian 4 h2 ++ bigEndian 4 h3
     ++ bigEndian 4 h4).

End Sha1.

#[local] Instance posix : Host := {|
  unicodeLower := fun s => s;
  sep := Posix.SLASH;
  resolve := Posix.resolve;
  join := Posix.join;
  basename := Posix.basename;
  relative := Posix.relative;
  localeCompare := compareUnits;
  zipSync := Zip.zipSync;
  sha1Hex := Sha1.digestHex
|}.

(** ** Worlds to run the model on *)

Definition demoFiles : FileTable :=
  [ (js "server/main.py", BinaryContent (js "print(1)"));
    (js "manifest.json", BinaryContent (js "{}"));
    (js "server/lib/pkg/mod/a.py", BinaryContent (js "a = 1"));
    (js "server/lib/pkg/mod/b.py", BinaryContent (js "b = 22"));
    (js "server/lib/one/deep/c.py", BinaryContent (js "c")) ].

(** An extension directory [/work/ext], entered as the working directory,
    at the time [t]: whether it has a manifest, what the user answers, how
    the creation of a manifest ends, and what the discovery yields. *)
Definition scene (manifestThere : bool) (answer created : result bool)
    (found : result (FileTable * Z)) (t : Date) : World := {|
  cwd := js "/work/ext";
  existsSync := fun p =>
    jsstring_eqb p (js "/work/ext")
    || manifestThere && jsstring_eqb p (js "/work/ext/manifest.json");
  isDirectory := fun p => jsstring_eqb p (js "/work/ext");
  confirm := fun _ => answer;
  initExtension := fun _ => created;
  validateManifest := fun _ => true;
  readManifest := fun _ => Ok (mkManifest (js "My Ext!") (js "1.2.0"));
  mkdirSync := fun _ => Ok tt;
  readDxtIgnorePatterns := fun _ => Ok [];
  getAllFilesWithCount := fun _ _ _ => found;
  now := t;
  writeFileSync := fun _ _ => Ok tt
|}.

Definition demoManifest : Manifest := mkManifest (js "My Ext!") (js "1.2.0").

(** The directory with its manifest and the files [table]. *)
Definition demoWorld (table : FileTable) (t : Date) : World :=
  scene true (Ok true) (Ok true) (Ok (table, 0)) t.

(** The same directory when reading a file fails. *)
Definition unreadableWorld : World :=
  scene true (Ok true) (Ok true)
    (Throw (ErrorObject (js "EACCES: permission denied"))) 1700000000000.

(** The same directory without a manifest, with a user who declines. *)
Definition declinedWorld : World :=
  scene false (Ok false) (Ok true) (Ok (demoFiles, 0)) 1700000000000.

Definition demoOptions : PackOptions := mkPackOptions (js ".") None None.

(** The directory of [demoWorld] on a disk where making a directory and
    writing a file end as given. *)
Definition diskWorld (made written : result unit) : World := {|
  cwd := js "/work/ext";
  existsSync := fun p =>
    jsstring_eqb p (js "/work/ext")
    || jsstring_eqb p (js "/work/ext/manifest.json");
  isDirectory := fun p => jsstring_eqb p (js "/work/ext");
  confirm := fun _ => Ok true;
  initExtension := fun _ => Ok true;
  validateManifest := fun _ => true;
  readManifest := fun _ => Ok (mkManifest (js "My Ext!") (js "1.2.0"));
  mkdirSync := fun _ => made;
  readDxtIgnorePatterns := fun _ => Ok [];
  getAllFilesWithCount := fun _ _ _ => Ok (demoFiles, 0);
  now := 1700000000000;
  writeFileSync := fun _ _ => written
|}.

(** The directory of [demoWorld] with a manifest that is invalid, or valid
    and parsed as given. *)
Definition manifestWorld (valid : bool) (parsed : result Manifest) : World := {|
  cwd := js "/work/ext";
  existsSync := fun p =>
    jsstring_eqb p (js "/work/ext")
    || jsstring_eqb p (js "/work/ext/manifest.json");
  isDirectory := fun p => jsstring_eqb p (js "/work/ext");
  confirm := fun _ => Ok true;
  initExtension := fun _ => Ok true;
  validateManifest := fun _ => valid;
  readManifest := fun _ => parsed;
  mkdirSync := fun _ => Ok tt;
  readDxtIgnorePatterns := fun _ => Ok [];
  getAllFilesWithCount := fun _ _ _ => Ok (demoFiles, 0);
  now := 1700000000000;
  writeFileSync := fun _ _ => Ok tt
|}.

Definition diskFull : thrown :=
  ErrorObject (js "ENOSPC: no space left on device").

(** The two files of the grouping example. The keys of the discovered
    files are the names of the entries of the archive (line 188 hands the
    object to [zipSync] as it is): paths inside the extension directory. *)
Definition nestedFiles : FileTable :=
  [ (js "a/b/c.txt", BinaryContent (js "x"));
    (js "a/b/c/d.txt", BinaryContent (js "yy")) ].

(** The directory [/work/ext] with its manifest and the files [table],
    packed from the working directory [/work]. *)
Definition outsideWorld (table : FileTable) (t : Date) : World := {|
  cwd := js "/work";
  existsSync := fun p =>
    jsstring_eqb p (js "/work/ext")
    || jsstring_eqb p (js "/work/ext/manifest.json");
  isDirectory := fun p => jsstring_eqb p (js "/work/ext");
  confirm := fun _ => Ok true;
  initExtension := fun _ => Ok true;
  validateManifest := fun _ => true;
  readManifest := fun _ => Ok (mkManifest (js "My Ext!") (js "1.2.0"));
  mkdirSync := fun _ => Ok tt;
  readDxtIgnorePatterns := fun _ => Ok [];
  getAllFilesWithCount := fun _ _ _ => Ok (table, 0);
  now := t;
  writeFileSync := fun _ _ => Ok tt
|}.

Definition outsideOptions : PackOptions := mkPackOptions (js "ext") None None.

(** The prompt closed by the user before an answer, and a manifest that
    cannot be written. *)
Definition promptClosed : thrown :=
  ErrorObject (js "User force closed the prompt").

Definition cannotCreate : thrown :=
  ErrorObject (js "EACCES: permission denied, open 'manifest.json'").

(** The directory without a manifest: a user who accepts and a creation
    that returns [false]; a creation that throws; a prompt that throws. *)
Definition creationFailsWorld : World :=
  scene false (Ok true) (Ok false) (Ok (demoFiles, 0)) 1700000000000.

Definition creationThrowsWorld : World :=
  scene false (Ok true) (Throw cannotCreate) (Ok (demoFiles, 0)) 1700000000000.

Definition promptThrowsWorld : World :=
  scene false (Throw promptClosed) (Ok true) (Ok (demoFiles, 0)) 1700000000000.

Definition readOnly : thrown :=
  ErrorObject (js "EROFS: read-only file system").

(** ** Notions of the statements, and the pipeline case by case *)

(** [tenths] is the integer nearest to ten times [num / den], the larger
    one when two are equally near. *)
Definition roundsTo (num den tenths : Z) : Prop :=
  2 * den * tenths <= 20 * num + den < 2 * den * (tenths + 1).

(** The code unit of a decimal digit. *)
Definition digitUnit (d : Z) : N := Z.to_N (48 + d).

(** The map that holds [f k] under each key of a list. *)
Definition tabulate (V : Type) (f : jsstring -> V) (keys : list jsstring)
    : StringMap V :=
  map (fun k => (k, f k)) keys.

(** [f] holds of every natural number below [n]. *)
Fixpoint allBelow (f : N -> bool) (n : nat) : bool :=
  match n with
  | O => true
  | S k => f (N.of_nat k) && allBelow f k
  end.

(** The bytes a row of the listing stands for, and the number of files. *)
Definition rowSize (r : Row) : Z :=
  match r with
  | FileRow sz _ => sz
  | DirRow sz _ _ => sz
  end.

Definition rowCount (r : Row) : nat :=
  match r with
  | FileRow _ _ => 1
  | DirRow _ _ count => count
  end.

Definition sumZ (l : list Z) : Z := fold_right Z.add 0 l.

(** The sum of a measure over the groups of a map. *)
Definition groupsSum (measure : Group -> Z) (m : StringMap Group) : Z :=
  sumZ (map (fun kv => measure (snd kv)) m).

Section Characterised.

Context {H : Host}.
Variable w : World.

Section Grouped.

Variable resolvedPath : jsstring.

(** The shallow file of an entry. *)
Definition shallowEntry (entry : jsstring * Content) : Shallow :=
  mkShallow (relPathOf w resolvedPath entry) (contentSize (snd entry)).

(** The state of the loop after the entries [l]. *)
Definition groupingOf (l : FileTable) : Grouping :=
  mkGrouping (sumSizes l)
    (tabulate (fun k => groupOf w resolvedPath k l)
       (groupKeys w resolvedPath l))
    (map shallowEntry (shallowOf w resolvedPath l)).

(** The row of a shallow entry. *)
Definition fileRowOf (entry : jsstring * Content) : Row :=
  FileRow (contentSize (snd entry)) (relPathOf w resolvedPath entry).

End Grouped.

Variable o : PackOptions.

Local Abbreviation resolvedPath := (resolve (cwd w) (extensionPath o)).
Local Abbreviation manifestPath := (join resolvedPath (js "manifest.json")).
Local Abbreviation finalOutputPath := (finalOutputPathOf w resolvedPath o).
Local Abbreviation outputDir := (join finalOutputPath (js "..")).
Local Abbreviation zipOptions := (mkZipOptions 9 (now w)).

(** The lines of lines 126-185. *)
Definition reportLog (manifest : Manifest) (discovered : FileTable)
    : list Event :=
  LogLine (packageHeader manifest) :: LogLine (js "Archive Contents")
  :: map (fun row => LogLine (renderRow row))
       (fileListing w resolvedPath discovered).

(** The line of the [catch]. *)
Definition errorLog (error : thrown) : list Event :=
  match error with
  | ErrorObject message =>
      [ErrorLine (js "ERROR: Archive error: " ++ message)]
  | OtherValue => [ErrorLine (js "ERROR: Unknown archive error occurred")]
  end.

(** The lines of lines 199-212. *)
Definition detailsLog (manifest : Manifest) (discovered : FileTable)
    (ignoredCount : Z) (zipData : bytes) : list Event :=
  [ LogLine ([10%N] ++ js "Archive Details");
    LogLine (js "name: " ++ name manifest);
    LogLine (js "version: " ++ version manifest);
    LogLine (js "filename: "
             ++ sanitizeNameForFilename unicodeLower (name manifest)
             ++ js "-" ++ version manifest ++ js ".dxt");
    LogLine (js "package size: "
             ++ formatFileSize (Z.of_nat (List.length zipData)));
    LogLine (js "unpacked size: "
             ++ formatFileSize
                  (totalUnpackedSize
                     (groupEntries w resolvedPath (sortEntries discovered))));
    LogLine (js "shasum: " ++ sha1Hex zipData);
    LogLine (js "total files: "
             ++ numberToString
                  (Z.of_nat (List.length (sortEntries discovered))));
    LogLine (js "ignored (.dxtignore) files: "
             ++ numberToString ignoredCount);
    LogLine ([10%N] ++ js "Output: " ++ finalOutputPath) ].

(** What the [try] statement of lines 113-221 does, case by case. *)
Definition stageRun (manifest : Manifest) : list Event * bool :=
  match readDxtIgnorePatterns w resolvedPath with
  | Throw e => (ReadIgnore resolvedPath :: errorLog e, false)
  | Ok patterns =>
      match getAllFilesWithCount w resolvedPath resolvedPath patterns with
      | Throw e =>
          (ReadIgnore resolvedPath :: Discover resolvedPath patterns
           :: errorLog e, false)
      | Ok (discovered, ignoredCount) =>
          let before :=
            ReadIgnore resolvedPath :: Discover resolvedPath patterns
            :: reportLog manifest discovered in
          match zipSync discovered zipOptions with
          | Throw e =>
              (before ++ ZipSync discovered zipOptions :: errorLog e, false)
          | Ok zipData =>
              match writeFileSync w finalOutputPath zipData with
              | Throw e =>
                  (before
                   ++ ZipSync discovered zipOptions
                   :: WriteFileSync finalOutputPath zipData :: errorLog e,
                   false)
              | Ok _ =>
                  (before
                   ++ ZipSync discovered zipOptions
                   :: WriteFileSync finalOutputPath zipData
                   :: detailsLog manifest discovered ignoredCount zipData,
                   true)
              end
          end
      end
  end.

(** The lines of the prompt for a manifest, lines 64-79. *)
Definition promptLog : list Event :=
  [ LogLine (js "No manifest.json found in " ++ extensionPath o);
    ConfirmPrompt confirmMessage ].

(** Lines 61-80: the events, and the promise when the function ends
    there. *)
Definition manifestCheckRun : list Event * option (result bool) :=
  if negb (existsSync w manifestPath) then
    match confirm w confirmMessage with
    | Throw e => (promptLog, Some (Throw e))
    | Ok false =>
        (promptLog
         ++ [ErrorLine
               (js "ERROR: Cannot pack extension without manifest.json")],
         Some (Ok false))
    | Ok true =>
        match initExtension w (extensionPath o) with
        | Throw e =>
            (promptLog ++ [InitExtension (extensionPath o)], Some (Throw e))
        | Ok false =>
            (promptLog
             ++ [InitExtension (extensionPath o);
                 ErrorLine (js "ERROR: Failed to create manifest")],
             Some (Ok false))
        | Ok true => (promptLog ++ [InitExtension (extensionPath o)], None)
        end
    end
  else ([], None).

(** Lines 52-101: the events, and either the promise when the function
    ends there or the manifest it goes on with. *)
Definition preludeRun : list Event * (result bool + Manifest) :=
  if negb (existsSync w resolvedPath) || negb (isDirectory w resolvedPath)
  then
    ([ErrorLine (js "ERROR: Directory not found: " ++ extensionPath o)],
     inl (Ok false))
  else
    match manifestCheckRun with
    | (t, Some res) => (t, inl res)
    | (t, None) =>
        if negb (validateManifest w manifestPath) then
          (t ++ [LogLine (js "Validating manifest...");
                 ErrorLine
                   (js "ERROR: Cannot pack extension with invalid manifest")],
           inl (Ok false))
        else
          match readManifest w manifestPath with
          | Throw e =>
              (t ++ LogLine (js "Validating manifest...")
                 :: ErrorLine (js "ERROR: Failed to parse manifest.json")
                 :: match e with
                    | ErrorObject message => [ErrorLine (js "  " ++ message)]
                    | OtherValue => []
                    end,
               inl (Ok false))
          | Ok manifest =>
              (t ++ [LogLine (js "Validating manifest...")], inr manifest)
          end
    end.

(** The whole invocation, case by case. *)
Definition packRun : list Event * result bool :=
  match preludeRun with
  | (t, inl res) => (t, res)
  | (t, inr manifest) =>
      match mkdirSync w outputDir with
      | Throw e => (t ++ [MkdirSync outputDir true], Throw e)
      | Ok _ =>
          (t ++ MkdirSync outputDir true :: fst (stageRun manifest),
           Ok (snd (stageRun manifest)))
      end
  end.

(** The invocation gets as far as the [try] statement with [manifest]: the
    directory and the manifest are there (the manifest maybe just created),
    the manifest is valid and parses, and the output directory could be
    made. *)
Definition reachesArchiveStage (manifest : Manifest) : Prop :=
  existsSync w resolvedPath = true /\
  isDirectory w resolvedPath = true /\
  (existsSync w manifestPath = true \/
   confirm w confirmMessage = Ok true /\
   initExtension w (extensionPath o) = Ok true) /\
  validateManifest w manifestPath = true /\
  readManifest w manifestPath = Ok manifest /\
  mkdirSync w outputDir = Ok tt.

(** The events that make or write something for the archive. *)
Definition isArchiveWork (e : Event) : bool :=
  match e with
  | MkdirSync _ _ | ReadIgnore _ | Discover _ _ | ZipSync _ _
  | WriteFileSync _ _ => true
  | _ => false
  end.

End Characterised.

(** ** The size format *)

Lemma decimal_digit (d : Z) :
  0 <= d < 10 -> decimal (Z.to_N d) = [digitUnit d].
Proof.
  intros Hd.
  assert (Hcases : d = 0 \/ d = 1 \/ d = 2 \/ d = 3 \/ d = 4 \/ d = 5
                   \/ d = 6 \/ d = 7 \/ d = 8 \/ d = 9) by lia.
  repeat (destruct Hcases as [-> | Hcases]; [reflexivity |]).
  subst d; reflexivity.
Qed.

Lemma toFixed1_rounds (num den : Z) :
  0 <= num -> 0 < den ->
  exists whole d,
    0 <= whole /\ 0 <= d <= 9 /\ roundsTo num den (10 * whole + d) /\
    toFixed1 num den = decimal (Z.to_N whole) ++ js "." ++ [digitUnit d].
Proof.
  intros Hnum Hden. unfold toFixed1.
  set (t := (20 * num + den) / (2 * den)).
  assert (Ht : 0 <= t) by (apply Z.div_pos; lia).
  exists (t / 10), (t mod 10).
  pose proof (Z.mod_pos_bound t 10 ltac:(lia)) as Hmod.
  pose proof (Z.div_mod t 10 ltac:(lia)) as Hdm.
  split; [lia |]. split; [lia |]. split.
  - unfold roundsTo. replace (10 * (t / 10) + t mod 10) with t by lia.
    split.
    + apply Z.mul_div_le; lia.
    + replace (t + 1) with (Z.succ t) by lia.
      apply Z.mul_succ_div_gt; lia.
  - rewrite (@decimal_digit (t mod 10)) by lia. reflexivity.
Qed.

(** C3. For a byte count [n], an integer from 0 to below [2^53],
    [formatFileSize n] is the whole number and ["B"] below 1024; below 1024 * 1024 it is [n / 1024] rounded to the
    nearest tenth, written with one decimal digit, and ["kB"]; from there on
    it is [n / 1048576] in the same form and ["MB"]. The four boundary
    values of the specification are as it gives them. *)
Theorem formatFileSize_ranges (n : Z) :
  0 <= n < byteCountLimit ->
  (n < 1024 -> formatFileSize n = decimal (Z.to_N n) ++ js "B") /\
  (1024 <= n < 1048576 ->
   exists whole d,
     0 <= d <= 9 /\ roundsTo n 1024 (10 * whole + d) /\
     formatFileSize n
     = decimal (Z.to_N whole) ++ js "." ++ [digitUnit d] ++ js "kB") /\
  (1048576 <= n ->
   exists whole d,
     0 <= d <= 9 /\ roundsTo n 1048576 (10 * whole + d) /\
     formatFileSize n
     = decimal (Z.to_N whole) ++ js "." ++ [digitUnit d] ++ js "MB") /\
  formatFileSize 1023 = js "1023B" /\
  formatFileSize 1024 = js "1.0kB" /\
  formatFileSize 1048575 = js "1024.0kB" /\
  formatFileSize 1048576 = js "1.0MB".
Proof.
  intros Hn. split; [| split; [| split]].
  - intros Hlt. unfold formatFileSize, numberToString.
    destruct (Z.ltb_spec n 1024); [| lia].
    destruct (Z.ltb_spec n 0); [lia | reflexivity].
  - intros [Hlo Hhi]. unfold formatFileSize.
    destruct (Z.ltb_spec n 1024); [lia |].
    destruct (Z.ltb_spec n (1024 * 1024)); [| lia].
    destruct (toFixed1_rounds (num := n) (den := 1024)) as (whole & d & _ & Hd & Hr & He);
      [lia | lia |].
    exists whole, d. rewrite He. repeat split; try lia; try apply Hr.
    now rewrite <- !app_assoc.
  - intros Hlo. unfold formatFileSize.
    destruct (Z.ltb_spec n 1024); [lia |].
    destruct (Z.ltb_spec n (1024 * 1024)); [lia |].
    destruct (toFixed1_rounds (num := n) (den := 1024 * 1024))
      as (whole & d & _ & Hd & Hr & He); [lia | lia |].
    exists whole, d. rewrite He. repeat split; try lia; try apply Hr.
    now rewrite <- !app_assoc.
  - repeat split; vm_compute; reflexivity.
Qed.

Lemma formatFileSize_ranges_witness :
  0 <= 1536 < byteCountLimit /\ formatFileSize 1536 = js "1.5kB" /\
  exists whole d,
    0 <= d <= 9 /\ roundsTo 1536 1024 (10 * whole + d) /\
    formatFileSize 1536
    = decimal (Z.to_N whole) ++ js "." ++ [digitUnit d] ++ js "kB".
Proof.
  split; [unfold byteCountLimit; lia |]. split; [reflexivity |].
  apply (formatFileSize_ranges (n := 1536)); unfold byteCountLimit; lia.
Defined.

(** ** The filename sanitizer *)

Section SanitizeFacts.

Variable unicodeLower : jsstring -> jsstring.

Lemma dropLeadingHyphens_Forall (P : N -> Prop) (s : jsstring) :
  Forall P s -> Forall P (dropLeadingHyphens s).
Proof.
  induction 1 as [| c r Hc Hr IH]; simpl; [constructor |].
  destruct (isHyphen c); [exact IH | now constructor].
Qed.

Lemma trimHyphens_Forall (P : N -> Prop) (s : jsstring) :
  Forall P s -> Forall P (trimHyphens s).
Proof.
  intros Hs. unfold trimHyphens, dropTrailingHyphens.
  apply Forall_rev, dropLeadingHyphens_Forall, Forall_rev.
  now apply dropLeadingHyphens_Forall.
Qed.

Lemma collapseHyphens_Forall (P : N -> Prop) (s : jsstring) :
  Forall P s -> Forall P (collapseHyphens s).
Proof.
  induction 1 as [| c r Hc Hr IH]; simpl; [constructor |].
  destruct (isHyphen c).
  - destruct r as [| d r']; [now constructor |].
    destruct (isHyphen d); [exact IH | now constructor].
  - now constructor.
Qed.

Lemma firstn_Forall (P : N -> Prop) (n : nat) (s : jsstring) :
  Forall P s -> Forall P (firstn n s).
Proof.
  intros Hs. rewrite <- (firstn_skipn n s) in Hs.
  now apply Forall_app in Hs.
Qed.

(** The sanitized name has at most 100 code units. *)
Lemma sanitize_length (name : jsstring) :
  (List.length (sanitizeNameForFilename unicodeLower name) <= 100)%nat.
Proof. apply firstn_le_length. Qed.

(** It holds only code units of [[a-z0-9-_.]]. *)
Lemma sanitize_allowed (name : jsstring) :
  Forall (fun c => isAllowed c = true)
    (sanitizeNameForFilename unicodeLower name).
Proof.
  unfold sanitizeNameForFilename, substring0.
  apply firstn_Forall, trimHyphens_Forall, collapseHyphens_Forall.
  unfold stripDisallowed. apply Forall_forall. intros c Hc.
  now apply filter_In in Hc.
Qed.

Lemma dropLeadingHyphens_head (s : jsstring) (c : N) (r : jsstring) :
  dropLeadingHyphens s = c :: r -> isHyphen c = false.
Proof.
  induction s as [| x s IH]; simpl; [discriminate |].
  destruct (isHyphen x) eqn:Hx; [exact IH |].
  intros Heq. injection Heq as -> _. exact Hx.
Qed.

(** Trailing hyphens are cut from the end: what stays is a prefix. *)
Lemma dropTrailingHyphens_prefix (s : jsstring) :
  exists tail, s = dropTrailingHyphens s ++ tail.
Proof.
  unfold dropTrailingHyphens.
  assert (Hsuffix : forall l, exists front, l = front ++ dropLeadingHyphens l).
  { induction l as [| x l [front IH]]; simpl.
    - now exists [].
    - destruct (isHyphen x).
      + exists (x :: front). simpl. now f_equal.
      + now exists []. }
  destruct (Hsuffix (rev s)) as [front Hfront].
  exists (rev front).
  rewrite <- rev_app_distr, <- Hfront. symmetry. apply rev_involutive.
Qed.

(** It does not begin with a hyphen. *)
Lemma sanitize_no_leading_hyphen (name : jsstring) (c : N) (r : jsstring) :
  sanitizeNameForFilename unicodeLower name = c :: r -> isHyphen c = false.
Proof.
  unfold sanitizeNameForFilename, substring0, trimHyphens.
  set (body := collapseHyphens _).
  destruct (dropTrailingHyphens_prefix (dropLeadingHyphens body))
    as [tail Htail].
  destruct (dropTrailingHyphens (dropLeadingHyphens body)) as [| x kept] eqn:Hk.
  - discriminate.
  - simpl. intros Heq. injection Heq as -> _.
    simpl in Htail. now apply dropLeadingHyphens_head in Htail.
Qed.

(** A code unit of the class is ASCII, lower case and no whitespace. *)
Lemma allowed_unit (c : N) :
  isAllowed c = true ->
  isAscii c = true /\ asciiLower c = c /\ isWhitespace c = false.
Proof.
  unfold isAllowed, isAscii, asciiLower, isWhitespace. intros Hc.
  repeat rewrite ?orb_true_iff, ?andb_true_iff in Hc.
  rewrite !N.leb_le, !N.eqb_eq in Hc.
  split; [apply N.ltb_lt; lia |]. split.
  - destruct (N.leb_spec 65 c), (N.leb_spec c 90); simpl; try reflexivity.
    lia.
  - repeat rewrite ?orb_false_iff, ?andb_false_iff.
    rewrite !N.leb_gt, !N.eqb_neq. lia.
Qed.

Lemma toLowerCase_allowed (s : jsstring) :
  Forall (fun c => isAllowed c = true) s -> toLowerCase unicodeLower s = s.
Proof.
  intros Hs. unfold toLowerCase.
  assert (Hascii : forallb isAscii s = true).
  { apply forallb_forall. intros c Hc. rewrite Forall_forall in Hs.
    now apply allowed_unit, Hs. }
  rewrite Hascii. rewrite <- (map_id s) at 2. apply map_ext_in.
  intros c Hc. rewrite Forall_forall in Hs. now apply allowed_unit, Hs.
Qed.

Lemma replaceWhitespaceRuns_allowed (s : jsstring) :
  Forall (fun c => isAllowed c = true) s -> replaceWhitespaceRuns s = s.
Proof.
  induction 1 as [| c r Hc Hr IH]; simpl; [reflexivity |].
  destruct (allowed_unit c Hc) as (_ & _ & ->). now rewrite IH.
Qed.

Lemma stripDisallowed_allowed (s : jsstring) :
  Forall (fun c => isAllowed c = true) s -> stripDisallowed s = s.
Proof.
  intros Hs. apply forallb_filter_id, forallb_forall.
  now rewrite Forall_forall in Hs.
Qed.

Lemma collapseHyphens_cons (c : N) (r : jsstring) :
  isHyphen c = false -> collapseHyphens (c :: r) = c :: collapseHyphens r.
Proof. intros Hc. simpl. now rewrite Hc. Qed.

Lemma noDouble_cons (c : N) (s : jsstring) :
  isHyphen c = false -> noDoubleHyphen s = true ->
  noDoubleHyphen (c :: s) = true.
Proof.
  intros Hc Hs. destruct s as [| d r]; [reflexivity |].
  change (negb (isHyphen c && isHyphen d) && noDoubleHyphen (d :: r) = true).
  now rewrite Hc, Hs.
Qed.

Lemma collapseHyphens_noDouble (s : jsstring) :
  noDoubleHyphen (collapseHyphens s) = true.
Proof.
  induction s as [| c r IH]; [reflexivity |].
  destruct (isHyphen c) eqn:Hc.
  - destruct r as [| d r']; [simpl; now rewrite Hc |].
    destruct (isHyphen d) eqn:Hd.
    + replace (collapseHyphens (c :: d :: r')) with (collapseHyphens (d :: r'))
        by (simpl; now rewrite Hc, Hd).
      exact IH.
    + replace (collapseHyphens (c :: d :: r'))
        with (c :: d :: collapseHyphens r')
        by (simpl; now rewrite Hc, Hd).
      rewrite collapseHyphens_cons in IH by assumption.
      change (negb (isHyphen c && isHyphen d)
              && noDoubleHyphen (d :: collapseHyphens r') = true).
      now rewrite Hc, Hd, IH.
  - rewrite collapseHyphens_cons by assumption. now apply noDouble_cons.
Qed.

Lemma noDouble_collapse (s : jsstring) :
  noDoubleHyphen s = true -> collapseHyphens s = s.
Proof.
  induction s as [| c r IH]; [reflexivity |].
  simpl. destruct r as [| d r'].
  - now destruct (isHyphen c).
  - intros Hnd. apply andb_true_iff in Hnd as [Hcd Hr].
    specialize (IH Hr). destruct (isHyphen c), (isHyphen d);
      simpl in Hcd; try discriminate; now rewrite IH.
Qed.

Lemma noDouble_tail (c : N) (s : jsstring) :
  noDoubleHyphen (c :: s) = true -> noDoubleHyphen s = true.
Proof.
  destruct s as [| d r]; [reflexivity |]. simpl. intros Hnd.
  now apply andb_true_iff in Hnd.
Qed.

Lemma noDouble_prefix (p q : jsstring) :
  noDoubleHyphen (p ++ q) = true -> noDoubleHyphen p = true.
Proof.
  induction p as [| c p IH]; [reflexivity |].
  destruct p as [| d p']; [reflexivity |].
  simpl. intros Hnd. apply andb_true_iff in Hnd as [Hcd Hr].
  rewrite Hcd. simpl. now apply IH.
Qed.

Lemma noDouble_dropLeading (s : jsstring) :
  noDoubleHyphen s = true -> noDoubleHyphen (dropLeadingHyphens s) = true.
Proof.
  induction s as [| c r IH]; [reflexivity |].
  intros Hnd. cbn [dropLeadingHyphens].
  destruct (isHyphen c); [| exact Hnd].
  apply IH. now apply noDouble_tail in Hnd.
Qed.

Lemma noDouble_trim (s : jsstring) :
  noDoubleHyphen s = true -> noDoubleHyphen (trimHyphens s) = true.
Proof.
  intros Hnd. unfold trimHyphens.
  destruct (dropTrailingHyphens_prefix (dropLeadingHyphens s)) as [tail Ht].
  apply noDouble_prefix with tail. rewrite <- Ht.
  now apply noDouble_dropLeading.
Qed.

Lemma dropLeadingHyphens_idem (s : jsstring) :
  dropLeadingHyphens (dropLeadingHyphens s) = dropLeadingHyphens s.
Proof.
  induction s as [| c r IH]; [reflexivity |].
  simpl. destruct (isHyphen c) eqn:Hc; [exact IH |]. simpl. now rewrite Hc.
Qed.

Lemma dropLeadingHyphens_fixed (s : jsstring) :
  (forall c r, s = c :: r -> isHyphen c = false) -> dropLeadingHyphens s = s.
Proof.
  destruct s as [| c r]; [reflexivity |]. intros Hhead.
  simpl. now rewrite (Hhead c r eq_refl).
Qed.

Lemma trimHyphens_head (s : jsstring) (c : N) (r : jsstring) :
  trimHyphens s = c :: r -> isHyphen c = false.
Proof.
  unfold trimHyphens. intros Heq.
  destruct (dropTrailingHyphens_prefix (dropLeadingHyphens s)) as [tail Ht].
  rewrite Heq in Ht. simpl in Ht. now apply dropLeadingHyphens_head in Ht.
Qed.

Lemma trimHyphens_last (s front : jsstring) (c : N) :
  trimHyphens s = front ++ [c] -> isHyphen c = false.
Proof.
  unfold trimHyphens, dropTrailingHyphens. intros Heq.
  apply (f_equal (@rev N)) in Heq.
  rewrite rev_involutive, rev_app_distr in Heq. simpl in Heq.
  now apply dropLeadingHyphens_head in Heq.
Qed.

Lemma trimHyphens_idem (s : jsstring) :
  trimHyphens (trimHyphens s) = trimHyphens s.
Proof.
  assert (Hlead : dropLeadingHyphens (trimHyphens s) = trimHyphens s)
    by (apply dropLeadingHyphens_fixed; intros c r; apply trimHyphens_head).
  unfold trimHyphens at 1. rewrite Hlead.
  unfold trimHyphens, dropTrailingHyphens.
  now rewrite rev_involutive, dropLeadingHyphens_idem.
Qed.

(** What the truncation does not cut is a fixed point of the sanitizer and
    does not end with a hyphen. *)
Lemma sanitize_idempotent_untruncated (name : jsstring) :
  (List.length (beforeTruncation unicodeLower name) <= 100)%nat ->
  let once := sanitizeNameForFilename unicodeLower name in
  sanitizeNameForFilename unicodeLower once = once /\
  (forall front c, once = front ++ [c] -> isHyphen c = false).
Proof.
  intros Hlen once.
  assert (Honce : once = beforeTruncation unicodeLower name)
    by (apply firstn_all2; exact Hlen).
  assert (Hallowed : Forall (fun c => isAllowed c = true) once)
    by apply sanitize_allowed.
  split.
  - unfold sanitizeNameForFilename at 1.
    rewrite toLowerCase_allowed, replaceWhitespaceRuns_allowed,
      stripDisallowed_allowed by assumption.
    rewrite Honce. unfold beforeTruncation.
    rewrite noDouble_collapse
      by (apply noDouble_trim, collapseHyphens_noDouble).
    rewrite trimHyphens_idem. apply firstn_all2. exact Hlen.
  - rewrite Honce. intros front c. apply trimHyphens_last.
Qed.

(** C2. A name of 99 letters, a hyphen and one more letter is cut after
    the hyphen: the sanitized name ends with a hyphen, and sanitizing it
    again removes that hyphen, so the second result differs from the
    first. *)
Theorem sanitize_truncation_leaves_hyphen :
  let name := repeat 97%N 99 ++ js "-b" in
  let once := sanitizeNameForFilename unicodeLower name in
  let twice := sanitizeNameForFilename unicodeLower once in
  once = repeat 97%N 99 ++ js "-" /\
  last once 0%N = HYPHEN /\
  twice = repeat 97%N 99 /\
  twice <> once.
Proof.
  vm_compute. repeat split; discriminate.
Qed.

End SanitizeFacts.

(** ** Maps in insertion order *)

Lemma jsstring_eqb_eq (a b : jsstring) : jsstring_eqb a b = true <-> a = b.
Proof.
  unfold jsstring_eqb. destruct (list_eq_dec N.eq_dec a b); split;
    congruence.
Qed.

Lemma jsstring_eqb_refl (a : jsstring) : jsstring_eqb a a = true.
Proof. now apply jsstring_eqb_eq. Qed.

Lemma jsstring_eqb_neq (a b : jsstring) : jsstring_eqb a b = false <-> a <> b.
Proof.
  unfold jsstring_eqb. destruct (list_eq_dec N.eq_dec a b); split;
    congruence.
Qed.

Lemma existsb_eqb_In (k : jsstring) (l : list jsstring) :
  existsb (jsstring_eqb k) l = true <-> In k l.
Proof.
  rewrite existsb_exists. split.
  - intros (x & Hx & Heq). apply jsstring_eqb_eq in Heq. now subst.
  - intros Hin. exists k. split; [assumption | apply jsstring_eqb_refl].
Qed.

Lemma existsb_eqb_notIn (k : jsstring) (l : list jsstring) :
  existsb (jsstring_eqb k) l = false <-> ~ In k l.
Proof.
  rewrite <- existsb_eqb_In. destruct (existsb _ l); split; congruence.
Qed.

Lemma distinct_snoc (l : list jsstring) (k : jsstring) :
  distinct (l ++ [k])
  = if existsb (jsstring_eqb k) (distinct l) then distinct l
    else distinct l ++ [k].
Proof. unfold distinct. now rewrite fold_left_app. Qed.

Lemma distinct_In (l : list jsstring) (k : jsstring) :
  In k (distinct l) <-> In k l.
Proof.
  induction l as [| x l IH] using rev_ind; [reflexivity |].
  rewrite distinct_snoc, in_app_iff.
  destruct (existsb (jsstring_eqb x) (distinct l)) eqn:Hx.
  - apply existsb_eqb_In in Hx. rewrite IH. simpl.
    split; [tauto |]. intros [Hl | [-> | []]]; [assumption |].
    now apply IH.
  - rewrite in_app_iff, IH. reflexivity.
Qed.

Lemma distinct_NoDup (l : list jsstring) : NoDup (distinct l).
Proof.
  induction l as [| x l IH] using rev_ind; [constructor |].
  rewrite distinct_snoc.
  destruct (existsb (jsstring_eqb x) (distinct l)) eqn:Hx; [assumption |].
  apply existsb_eqb_notIn in Hx.
  apply NoDup_app; [assumption | repeat constructor; intros [] |].
  intros y Hy [<- | []]. contradiction.
Qed.

Section StringMapFacts.

Variable V : Type.
Variable f : jsstring -> V.

Lemma mapHas_tabulate (k : jsstring) (keys : list jsstring) :
  mapHas k (tabulate f keys) = existsb (jsstring_eqb k) keys.
Proof.
  unfold mapHas, tabulate. induction keys as [| x keys IH]; simpl;
    [reflexivity | now rewrite IH].
Qed.

Lemma mapSet_fresh (k : jsstring) (v : V) (keys : list jsstring) :
  ~ In k keys -> mapSet k v (tabulate f keys) = tabulate f keys ++ [(k, v)].
Proof.
  induction keys as [| x keys IH]; simpl; intros Hk; [reflexivity |].
  destruct (jsstring_eqb k x) eqn:Hkx.
  - apply jsstring_eqb_eq in Hkx. subst x. exfalso. apply Hk. now left.
  - rewrite IH by (intros Hin; apply Hk; now right). reflexivity.
Qed.

Lemma mapModify_fresh (k : jsstring) (h : V -> V) (v : V)
    (keys : list jsstring) :
  ~ In k keys ->
  mapModify k h (tabulate f keys ++ [(k, v)]) = tabulate f keys ++ [(k, h v)].
Proof.
  induction keys as [| x keys IH]; simpl; intros Hk.
  - now rewrite jsstring_eqb_refl.
  - destruct (jsstring_eqb k x) eqn:Hkx.
    + apply jsstring_eqb_eq in Hkx. subst x. exfalso. apply Hk. now left.
    + rewrite IH by (intros Hin; apply Hk; now right). reflexivity.
Qed.

Lemma mapGet_tabulate (k : jsstring) (keys : list jsstring) :
  In k keys -> mapGet k (tabulate f keys) = Some (f k).
Proof.
  induction keys as [| x keys IH]; simpl; [intros [] |].
  intros Hk. destruct (jsstring_eqb k x) eqn:Hkx.
  - apply jsstring_eqb_eq in Hkx. now subst.
  - apply IH. destruct Hk as [-> | Hk]; [| assumption].
    now rewrite jsstring_eqb_refl in Hkx.
Qed.

End StringMapFacts.

(** Changing the value under a key of a tabulated map tabulates the changed
    function. *)
Lemma mapModify_tabulate (V : Type) (f g : jsstring -> V) (h : V -> V)
    (k : jsstring) (keys : list jsstring) :
  NoDup keys ->
  g k = h (f k) ->
  (forall k', k' <> k -> In k' keys -> g k' = f k') ->
  mapModify k h (tabulate f keys) = tabulate g keys.
Proof.
  intros Hnd Hk Hother.
  induction keys as [| x keys IH]; simpl; [reflexivity |].
  apply NoDup_cons_iff in Hnd as [Hx Hnd].
  destruct (jsstring_eqb k x) eqn:Hkx.
  - apply jsstring_eqb_eq in Hkx. subst x. rewrite Hk. f_equal.
    apply map_ext_in. intros k' Hk'. f_equal.
    symmetry. apply Hother; [| now right]. intros ->. contradiction.
  - apply jsstring_eqb_neq in Hkx.
    rewrite Hother by (simpl; auto). f_equal.
    fold (tabulate f keys). fold (tabulate g keys).
    apply IH; [assumption |]. intros k' Hne Hin. apply Hother; simpl; auto.
Qed.

(** ** The grouping loop *)

Lemma sumSizes_app (a b : FileTable) : sumSizes (a ++ b) = sumSizes a + sumSizes b.
Proof.
  unfold sumSizes. induction a as [| e a IH]; simpl; [reflexivity |].
  rewrite IH. lia.
Qed.

Section GroupingFacts.

Context {H : Host}.
Variable w : World.
Variable resolvedPath : jsstring.

Local Abbreviation relPath := (relPathOf w resolvedPath).
Local Abbreviation deep := (isDeep w resolvedPath).
Local Abbreviation keyOf := (groupKeyOf w resolvedPath).
Local Abbreviation members := (membersOf w resolvedPath).
Local Abbreviation keys := (groupKeys w resolvedPath).
Local Abbreviation group := (fun l k => groupOf w resolvedPath k l).

Lemma groupEntries_snoc (l : FileTable) (entry : jsstring * Content) :
  groupEntries w resolvedPath (l ++ [entry])
  = groupEntry w resolvedPath (groupEntries w resolvedPath l) entry.
Proof. unfold groupEntries. now rewrite fold_left_app. Qed.

Lemma members_snoc (k : jsstring) (l : FileTable) (entry : jsstring * Content) :
  members k (l ++ [entry])
  = members k l
    ++ (if deep entry && jsstring_eqb k (keyOf entry) then [entry] else []).
Proof. unfold membersOf. now rewrite filter_app. Qed.

Lemma keys_snoc_deep (l : FileTable) (entry : jsstring * Content) :
  deep entry = true ->
  keys (l ++ [entry])
  = if existsb (jsstring_eqb (keyOf entry)) (keys l) then keys l
    else keys l ++ [keyOf entry].
Proof.
  intros Hd. unfold groupKeys. rewrite filter_app. simpl. rewrite Hd.
  rewrite map_app. simpl. apply distinct_snoc.
Qed.

Lemma keys_snoc_shallow (l : FileTable) (entry : jsstring * Content) :
  deep entry = false -> keys (l ++ [entry]) = keys l.
Proof.
  intros Hd. unfold groupKeys. rewrite filter_app. simpl. rewrite Hd.
  now rewrite app_nil_r.
Qed.

Lemma members_none (k : jsstring) (l : FileTable) :
  ~ In k (keys l) -> members k l = [].
Proof.
  intros Hk. unfold membersOf.
  induction l as [| e l IH]; simpl; [reflexivity |].
  assert (Hrest : ~ In k (keys l)).
  { intros Hin. apply Hk. unfold groupKeys in *. apply distinct_In.
    apply (proj1 (distinct_In _ _)) in Hin. simpl.
    destruct (deep e); simpl; auto. }
  destruct (deep e) eqn:Hd; simpl; [| now apply IH].
  destruct (jsstring_eqb k (keyOf e)) eqn:Hke; [| now apply IH].
  exfalso. apply Hk. apply jsstring_eqb_eq in Hke. subst k.
  unfold groupKeys. apply distinct_In. simpl. rewrite Hd. now left.
Qed.

Lemma group_snoc_other (k : jsstring) (l : FileTable) (entry : jsstring * Content) :
  deep entry && jsstring_eqb k (keyOf entry) = false ->
  group (l ++ [entry]) k = group l k.
Proof.
  intros Hne. unfold groupOf. rewrite members_snoc, Hne.
  now rewrite app_nil_r.
Qed.

Lemma group_snoc_same (l : FileTable) (entry : jsstring * Content) :
  deep entry = true ->
  group (l ++ [entry]) (keyOf entry)
  = mkGroup (files (group l (keyOf entry)) ++ [relPath entry])
      (totalSize (group l (keyOf entry)) + contentSize (snd entry)).
Proof.
  intros Hd. unfold groupOf. rewrite members_snoc, Hd, jsstring_eqb_refl.
  simpl. rewrite map_app, sumSizes_app. simpl. f_equal. unfold sumSizes.
  simpl. lia.
Qed.

(** The loop computes, for every list of entries in the order given: the
    sum of all sizes; under each group key, in the order of first
    occurrence, the relative paths of the entries of that group with the
    sum of their sizes; and the other entries as shallow files. *)
Lemma groupEntries_groupingOf (l : FileTable) :
  groupEntries w resolvedPath l = groupingOf w resolvedPath l.
Proof.
  induction l as [| entry l IH] using rev_ind; [reflexivity |].
  rewrite groupEntries_snoc, IH. clear IH.
  unfold groupEntry, groupingOf. destruct entry as [filePath content].
  cbn [totalUnpackedSize directoryGroups shallowFiles].
  change (relative (cwd w) resolvedPath filePath)
    with (relPath (filePath, content)).
  change (split sep (relPath (filePath, content)))
    with (segmentsOf w resolvedPath (filePath, content)).
  change (3 <? List.length (segmentsOf w resolvedPath (filePath, content)))%nat
    with (deep (filePath, content)).
  change (joinWith (js "/")
            (firstn 3 (segmentsOf w resolvedPath (filePath, content))))
    with (keyOf (filePath, content)).
  set (entry := (filePath, content)).
  destruct (deep entry) eqn:Hd.
  - (* a deep entry *)
    f_equal.
    + rewrite sumSizes_app. unfold sumSizes. simpl. lia.
    + rewrite mapHas_tabulate, keys_snoc_deep by assumption.
      destruct (existsb (jsstring_eqb (keyOf entry)) (keys l)) eqn:Hin; simpl.
      * apply mapModify_tabulate.
        -- apply distinct_NoDup.
        -- now apply group_snoc_same.
        -- intros k' Hne _. apply group_snoc_other.
           rewrite Hd. simpl. now apply jsstring_eqb_neq.
      * apply existsb_eqb_notIn in Hin.
        rewrite mapSet_fresh, mapModify_fresh by assumption.
        unfold tabulate. rewrite map_app. simpl. f_equal.
        -- apply map_ext_in. intros k' Hk'. f_equal. symmetry.
           apply group_snoc_other. rewrite Hd. simpl.
           apply jsstring_eqb_neq. intros ->. contradiction.
        -- rewrite group_snoc_same by assumption.
           unfold groupOf. rewrite members_none by assumption. reflexivity.
    + unfold shallowOf. rewrite filter_app. simpl. rewrite Hd.
      now rewrite app_nil_r.
  - (* a shallow entry *)
    f_equal.
    + rewrite sumSizes_app. unfold sumSizes. simpl. lia.
    + rewrite keys_snoc_shallow by assumption.
      apply map_ext_in. intros k' _. f_equal. symmetry.
      apply group_snoc_other. now rewrite Hd.
    + unfold shallowOf. rewrite filter_app. simpl. rewrite Hd.
      rewrite map_app. reflexivity.
Qed.

End GroupingFacts.

Section GroupFacts.

Context {H : Host}.
Variable w : World.
Variable resolvedPath : jsstring.

Lemma tabulate_In (V : Type) (f : jsstring -> V) (l : list jsstring)
    (k : jsstring) (v : V) :
  In (k, v) (tabulate f l) <-> In k l /\ v = f k.
Proof.
  unfold tabulate. rewrite in_map_iff. split.
  - intros (k' & Heq & Hin). injection Heq as -> ->. now split.
  - intros [Hin ->]. now exists k.
Qed.

Lemma keys_In (l : FileTable) (k : jsstring) :
  In k (groupKeys w resolvedPath l) <->
  exists entry,
    In entry l /\ isDeep w resolvedPath entry = true
    /\ groupKeyOf w resolvedPath entry = k.
Proof.
  unfold groupKeys. rewrite distinct_In, in_map_iff. split.
  - intros (e & Hk & Hin). apply filter_In in Hin as [Hin Hd]. now exists e.
  - intros (e & Hin & Hd & Hk). exists e. split; [assumption |].
    now apply filter_In.
Qed.

Lemma members_In (l : FileTable) (k : jsstring) (entry : jsstring * Content) :
  In entry (membersOf w resolvedPath k l) <->
  In entry l /\ isDeep w resolvedPath entry = true
  /\ groupKeyOf w resolvedPath entry = k.
Proof.
  unfold membersOf. rewrite filter_In, andb_true_iff, jsstring_eqb_eq.
  intuition congruence.
Qed.

(** Every group of the loop holds the entries of [membersOf] under its key,
    at least one, with the sum of their sizes. *)
Lemma group_In (l : FileTable) (k : jsstring) (grp : Group) :
  In (k, grp) (directoryGroups (groupEntries w resolvedPath l)) ->
  grp = groupOf w resolvedPath k l /\ membersOf w resolvedPath k l <> [].
Proof.
  rewrite groupEntries_groupingOf. unfold groupingOf. simpl.
  intros Hin. apply tabulate_In in Hin as [Hk ->]. split; [reflexivity |].
  apply keys_In in Hk as (e & Hin & Hd & Hk).
  assert (Hm : In e (membersOf w resolvedPath k l)) by now apply members_In.
  intros Hnil. now rewrite Hnil in Hm.
Qed.

Lemma group_of_deep (l : FileTable) (entry : jsstring * Content) :
  In entry l -> isDeep w resolvedPath entry = true ->
  let key := groupKeyOf w resolvedPath entry in
  mapGet key (directoryGroups (groupEntries w resolvedPath l))
  = Some (groupOf w resolvedPath key l)
  /\ In (relPathOf w resolvedPath entry) (files (groupOf w resolvedPath key l)).
Proof.
  intros Hin Hd key. rewrite groupEntries_groupingOf. unfold groupingOf.
  simpl. split.
  - apply mapGet_tabulate with (f := fun k => groupOf w resolvedPath k l).
    apply keys_In. now exists entry.
  - unfold groupOf. simpl. apply in_map. now apply members_In.
Qed.

Lemma shallow_In (l : FileTable) (s : Shallow) :
  In s (shallowFiles (groupEntries w resolvedPath l)) <->
  exists entry,
    In entry l /\ isDeep w resolvedPath entry = false
    /\ s = shallowEntry w resolvedPath entry.
Proof.
  rewrite groupEntries_groupingOf. unfold groupingOf, shallowOf. simpl.
  rewrite in_map_iff. split.
  - intros (e & <- & Hin). apply filter_In in Hin as [Hin Hd].
    exists e. repeat split; [assumption |].
    now destruct (isDeep w resolvedPath e).
  - intros (e & Hin & Hd & ->). exists e. split; [reflexivity |].
    apply filter_In. split; [assumption | now rewrite Hd].
Qed.

(** Whether an entry is deep depends on its relative path alone. *)
Lemma isDeep_relPath (a b : jsstring * Content) :
  relPathOf w resolvedPath a = relPathOf w resolvedPath b ->
  isDeep w resolvedPath a = isDeep w resolvedPath b.
Proof. unfold isDeep, segmentsOf. now intros ->. Qed.

End GroupFacts.

(** X19. The grouping loop in terms of the path that line 144 computes for
    an entry, [relative(resolvedPath, key)] with both resolved in the working
    directory. An entry for which that path splits into more than three
    segments goes to the group keyed by the first three of them joined with
    ["/"], and is no shallow file; an entry for which it splits into three
    segments or fewer is a shallow file and belongs to no group; a group
    holds the computed paths of its members and, as its size, the sum of
    their sizes. Packed on POSIX from inside the extension directory, where
    the computed path is the key, [a/b/c/d.txt] goes under [a/b/c] and
    [a/b/c.txt] is listed by itself. *)
Theorem grouping_by_first_three_segments (H : Host) (w : World)
    (resolvedPath : jsstring) (fileEntries : FileTable) :
  let g := groupEntries w resolvedPath fileEntries in
  (forall entry,
     In entry fileEntries ->
     (3 < List.length (segmentsOf w resolvedPath entry))%nat ->
     exists grp,
       mapGet (joinWith (js "/") (firstn 3 (segmentsOf w resolvedPath entry)))
         (directoryGroups g) = Some grp /\
       In (relPathOf w resolvedPath entry) (files grp) /\
       ~ In (shallowEntry w resolvedPath entry) (shallowFiles g)) /\
  (forall entry,
     In entry fileEntries ->
     (List.length (segmentsOf w resolvedPath entry) <= 3)%nat ->
     In (shallowEntry w resolvedPath entry) (shallowFiles g) /\
     forall key grp,
       In (key, grp) (directoryGroups g) ->
       ~ In (relPathOf w resolvedPath entry) (files grp)) /\
  (forall key grp,
     In (key, grp) (directoryGroups g) ->
     files grp
     = map (relPathOf w resolvedPath) (membersOf w resolvedPath key fileEntries) /\
     totalSize grp = sumSizes (membersOf w resolvedPath key fileEntries)) /\
  (let example :=
     @groupEntries posix (demoWorld [] 0) (js "/work/ext")
       [ (js "a/b/c/d.txt", BinaryContent [1; 2; 3]%N);
         (js "a/b/c.txt", BinaryContent [4]%N) ] in
   directoryGroups example = [(js "a/b/c", mkGroup [js "a/b/c/d.txt"] 3)] /\
   shallowFiles example = [mkShallow (js "a/b/c.txt") 1]).
Proof.
  intros g. split; [| split; [| split]].
  - intros entry Hin Hlen.
    assert (Hd : isDeep w resolvedPath entry = true)
      by now apply Nat.ltb_lt.
    destruct (group_of_deep w resolvedPath fileEntries entry Hin Hd)
      as [Hget Hmem].
    eexists. split; [exact Hget |]. split; [exact Hmem |].
    intros Hs. apply shallow_In in Hs as (e & _ & He & Heq).
    injection Heq as Hrel _.
    rewrite (isDeep_relPath w resolvedPath entry e Hrel) in Hd. congruence.
  - intros entry Hin Hlen.
    assert (Hd : isDeep w resolvedPath entry = false)
      by (apply Nat.ltb_ge; exact Hlen).
    split.
    + apply shallow_In. now exists entry.
    + intros key grp Hg Hmem. apply group_In in Hg as [-> _].
      unfold groupOf in Hmem. simpl in Hmem.
      apply in_map_iff in Hmem as (e & Hrel & He).
      apply members_In in He as (_ & He & _).
      rewrite (isDeep_relPath w resolvedPath e entry Hrel) in He. congruence.
  - intros key grp Hg. apply group_In in Hg as [-> _]. now split.
  - vm_compute. split; reflexivity.
Qed.

Lemma grouping_by_first_three_segments_witness :
  let w := demoWorld demoFiles 0 in
  let entry := (js "server/lib/pkg/mod/a.py", BinaryContent (js "a = 1")) in
  In entry demoFiles /\
  (3 < List.length (@segmentsOf posix w (js "/work/ext") entry))%nat /\
  exists grp,
    mapGet (js "server/lib/pkg")
      (directoryGroups (@groupEntries posix w (js "/work/ext") demoFiles))
    = Some grp /\
    In (js "server/lib/pkg/mod/a.py") (files grp).
Proof.
  intros w entry.
  assert (Hin : In entry demoFiles) by (right; right; left; reflexivity).
  assert (Hlen : (3 < List.length (@segmentsOf posix w (js "/work/ext") entry))%nat)
    by (vm_compute; lia).
  split; [exact Hin |]. split; [exact Hlen |].
  destruct (proj1 (@grouping_by_first_three_segments posix w (js "/work/ext")
                     demoFiles) entry Hin Hlen) as (grp & Hget & Hmem & _).
  exists grp. split; [exact Hget | exact Hmem].
Defined.


(** ** The sort *)

Section SortFacts.

Variable A : Type.
Variable compare : A -> A -> Z.

Local Abbreviation le := (fun a b => compare a b <= 0).

Hypothesis compare_total : forall a b, compare a b <= 0 \/ compare b a <= 0.
Hypothesis compare_trans :
  forall a b c, compare a b <= 0 -> compare b c <= 0 -> compare a c <= 0.

Lemma insertSorted_perm (x : A) (l : list A) :
  Permutation (insertSorted compare x l) (x :: l).
Proof.
  induction l as [| y l IH]; simpl; [reflexivity |].
  destruct (compare x y <=? 0); [reflexivity |].
  rewrite IH. apply perm_swap.
Qed.

Lemma sortWith_perm (l : list A) : Permutation (sortWith compare l) l.
Proof.
  induction l as [| x l IH]; simpl; [reflexivity |].
  rewrite insertSorted_perm. now constructor.
Qed.

Lemma insertSorted_sorted (x : A) (l : list A) :
  StronglySorted le l -> StronglySorted le (insertSorted compare x l).
Proof.
  induction 1 as [| y l Hs IH Hy]; simpl.
  - repeat constructor.
  - destruct (Z.leb_spec (compare x y) 0) as [Hxy | Hxy].
    + constructor; [now constructor |].
      constructor; [assumption |].
      eapply Forall_impl; [| exact Hy]. intros z Hz.
      now apply compare_trans with y.
    + constructor; [assumption |].
      assert (Hyx : compare y x <= 0)
        by (destruct (compare_total x y); [lia | assumption]).
      eapply Permutation_Forall;
        [symmetry; apply insertSorted_perm |].
      now constructor.
Qed.

Lemma sortWith_sorted (l : list A) : StronglySorted le (sortWith compare l).
Proof.
  induction l as [| x l IH]; simpl; [constructor |].
  now apply insertSorted_sorted.
Qed.

(** Two sorted lists with the same elements are the same list, when no two
    different elements of them compare as equal. *)
Lemma sorted_perm_unique (l1 l2 : list A) :
  StronglySorted le l1 -> StronglySorted le l2 -> Permutation l1 l2 ->
  (forall a b, In a l1 -> In b l1 -> le a b -> le b a -> a = b) ->
  l1 = l2.
Proof.
  intros Hs1. revert l2.
  induction Hs1 as [| x l1 Hs1 IH Hx]; intros l2 Hs2 Hp Hanti.
  - apply Permutation_nil in Hp. now subst.
  - destruct Hs2 as [| y l2 Hs2 Hy].
    + symmetry in Hp. now apply Permutation_nil in Hp.
    + assert (Hxy : x = y).
      { assert (Hyin : In y (x :: l1))
          by (apply Permutation_in with (y :: l2);
              [now symmetry | now left]).
        assert (Hxin : In x (y :: l2))
          by (apply Permutation_in with (x :: l1); [assumption | now left]).
        destruct Hyin as [Heq | Hyin]; [assumption |].
        destruct Hxin as [Heq | Hxin]; [now symmetry |].
        rewrite Forall_forall in Hx, Hy.
        apply Hanti; [now left | now right | now apply Hx | now apply Hy]. }
      subst y. f_equal. apply IH; [assumption | |].
      * now apply Permutation_cons_inv in Hp.
      * intros a b Ha Hb. apply Hanti; now right.
Qed.

End SortFacts.

(** The comparison by code units is a total order. *)

Lemma compareUnits_total (a b : jsstring) :
  compareUnits a b <= 0 \/ compareUnits b a <= 0.
Proof.
  revert b. induction a as [| x a IH]; intros [| y b]; simpl; try lia.
  destruct (N.ltb_spec x y), (N.ltb_spec y x); try lia. apply IH.
Qed.

Lemma compareUnits_trans (a b c : jsstring) :
  compareUnits a b <= 0 -> compareUnits b c <= 0 -> compareUnits a c <= 0.
Proof.
  revert b c. induction a as [| x a IH]; intros [| y b] [| z c]; simpl;
    try lia.
  destruct (N.ltb_spec x y), (N.ltb_spec y x), (N.ltb_spec y z),
    (N.ltb_spec z y), (N.ltb_spec x z), (N.ltb_spec z x); try lia.
  apply IH.
Qed.

Lemma compareUnits_antisym (a b : jsstring) :
  compareUnits a b <= 0 -> compareUnits b a <= 0 -> a = b.
Proof.
  revert b. induction a as [| x a IH]; intros [| y b]; simpl; try lia;
    [reflexivity |].
  destruct (N.ltb_spec x y), (N.ltb_spec y x); try lia.
  intros Hab Hba. assert (x = y) by lia. subst y. f_equal. now apply IH.
Qed.

(** ** The file listing *)

Section ListingFacts.

Context {H : Host}.
Variable w : World.
Variable resolvedPath : jsstring.

Local Abbreviation keyCompare :=
  (fun a b : jsstring * Content => localeCompare (fst a) (fst b)).

(** The listing in terms of the sorted entries. *)
Lemma fileListing_rows (discovered : FileTable) :
  fileListing w resolvedPath discovered
  = map (fileRowOf w resolvedPath) (shallowOf w resolvedPath (sortEntries discovered))
    ++ map (fun k =>
              groupRow (k, groupOf w resolvedPath k (sortEntries discovered)))
         (groupKeys w resolvedPath (sortEntries discovered)).
Proof.
  unfold fileListing, listingRows. rewrite groupEntries_groupingOf.
  unfold groupingOf, tabulate. simpl. now rewrite !map_map.
Qed.

(** With a comparison that is total and transitive, and under which no
    two different keys of the entries compare as equal, the sorted entries
    do not depend on the order of enumeration. *)
Lemma sortEntries_perm_eq (discovered discovered' : FileTable) :
  (forall a b, localeCompare a b <= 0 \/ localeCompare b a <= 0) ->
  (forall a b c,
     localeCompare a b <= 0 -> localeCompare b c <= 0 ->
     localeCompare a c <= 0) ->
  (forall a b,
     In a (map fst discovered) -> In b (map fst discovered) ->
     localeCompare a b <= 0 -> localeCompare b a <= 0 -> a = b) ->
  NoDup (map fst discovered) ->
  Permutation discovered discovered' ->
  sortEntries discovered' = sortEntries discovered.
Proof.
  intros Htotal Htrans Hanti Hnodup Hperm. unfold sortEntries.
  assert (Hsorted : forall l, StronglySorted (fun a b => keyCompare a b <= 0)
                                (sortWith keyCompare l)).
  { intros l. apply sortWith_sorted; intros; [apply Htotal |].
    eapply Htrans; eassumption. }
  apply (@sorted_perm_unique _ keyCompare); try apply Hsorted.
  - rewrite !sortWith_perm. now symmetry.
  - intros a b Ha Hb Hab Hba.
    assert (Ha' : In a discovered).
    { apply Permutation_in with discovered'; [now symmetry |].
      eapply Permutation_in; [apply sortWith_perm | exact Ha]. }
    assert (Hb' : In b discovered).
    { apply Permutation_in with discovered'; [now symmetry |].
      eapply Permutation_in; [apply sortWith_perm | exact Hb]. }
    assert (Hkey : fst a = fst b)
      by (apply Hanti; [now apply in_map | now apply in_map | | ]; assumption).
    clear - Hkey Ha' Hb' Hnodup.
    induction discovered as [| e l IH]; [contradiction |].
    simpl in Hnodup. apply NoDup_cons_iff in Hnodup as [Hfresh Hnodup].
    destruct Ha' as [-> | Ha'], Hb' as [-> | Hb'].
    + reflexivity.
    + exfalso. apply Hfresh. rewrite Hkey. now apply in_map.
    + exfalso. apply Hfresh. rewrite <- Hkey. now apply in_map.
    + now apply IH.
Qed.

(** The listing reads the world through the working directory alone. *)
Lemma fileListing_cwd (w' : World) (discovered : FileTable) :
  cwd w' = cwd w ->
  fileListing w' resolvedPath discovered
  = fileListing w resolvedPath discovered.
Proof.
  intros Hcwd. unfold fileListing, groupEntries, groupEntry.
  now rewrite Hcwd.
Qed.


End ListingFacts.

(** ** The run of the pipeline *)

Section RunFacts.

Context {H : Host}.
Variable w : World.
Variable o : PackOptions.

Local Abbreviation resolvedPath := (resolve (cwd w) (extensionPath o)).
Local Abbreviation manifestPath := (join resolvedPath (js "manifest.json")).
Local Abbreviation finalOutputPath := (finalOutputPathOf w resolvedPath o).
Local Abbreviation outputDir := (join finalOutputPath (js "..")).
Local Abbreviation zipOptions := (mkZipOptions 9 (now w)).

Lemma forEach_log (R : Type) (rows : list Row) :
  forEach (fun row => log (R := R) (renderRow row)) rows
  = (map (fun row => LogLine (renderRow row)) rows, Normal tt).
Proof.
  induction rows as [| row rows IH]; [reflexivity |].
  simpl. rewrite IH. reflexivity.
Qed.

Lemma archiveStage_stageRun (manifest : Manifest) :
  tryCatch (archiveStage w resolvedPath finalOutputPath manifest) archiveError
  = (fst (stageRun w o manifest), Returned (snd (stageRun w o manifest))).
Proof.
  unfold archiveStage, stageRun, fileListing.
  destruct (readDxtIgnorePatterns w resolvedPath) as [patterns | e];
    [| destruct e; reflexivity].
  cbn [call bind].
  destruct (getAllFilesWithCount w resolvedPath resolvedPath patterns)
    as [[discovered ignoredCount] | e]; [| destruct e; reflexivity].
  cbn [call bind log emit app fst snd].
  rewrite forEach_log. cbn [bind].
  destruct (zipSync discovered zipOptions) as [zipData | e]; cbn [call bind].
  - destruct (writeFileSync w finalOutputPath zipData) as [[] | e];
      cbn [call bind log emit app fst snd tryCatch return_];
      try destruct e;
      cbn [archiveError errorLog bind logError emit return_ app fst snd];
      unfold reportLog, fileListing, detailsLog;
      rewrite <- ?app_assoc; reflexivity.
  - cbn [call bind log emit app fst snd tryCatch return_];
      destruct e;
      cbn [archiveError errorLog bind logError emit return_ app fst snd];
      unfold reportLog, fileListing;
      rewrite <- ?app_assoc; reflexivity.
Qed.

Lemma packExtension_packRun : packExtension w o = packRun w o.
Proof.
  unfold packExtension, packBody, packRun, preludeRun, manifestCheckRun.
  destruct (negb (existsSync w resolvedPath) || negb (isDirectory w resolvedPath));
    [reflexivity |].
  cbn [bind ret app].
  destruct (negb (existsSync w manifestPath)).
  - cbn [bind ret app log emit call promptLog].
    destruct (confirm w confirmMessage) as [[|] | e]; [| reflexivity ..].
    cbn [bind ret app log emit call].
    destruct (initExtension w (extensionPath o)) as [[|] | e];
      [| reflexivity ..].
    cbn [bind ret app log emit call negb].
    destruct (negb (validateManifest w manifestPath)); [reflexivity |].
    cbn [bind ret app log emit call negb].
    destruct (readManifest w manifestPath) as [manifest | e];
      [| destruct e; reflexivity].
    cbn [bind ret app log emit call negb quiet tryCatch].
    destruct (mkdirSync w outputDir) as [[] | e]; [| reflexivity].
    cbn [bind ret app log emit call]. rewrite archiveStage_stageRun.
    reflexivity.
  - cbn [bind ret app log emit call].
    destruct (negb (validateManifest w manifestPath)); [reflexivity |].
    cbn [bind ret app log emit call negb].
    destruct (readManifest w manifestPath) as [manifest | e];
      [| destruct e; reflexivity].
    cbn [bind ret app log emit call negb quiet tryCatch].
    destruct (mkdirSync w outputDir) as [[] | e]; [| reflexivity].
    cbn [bind ret app log emit call]. rewrite archiveStage_stageRun.
    reflexivity.
Qed.

Lemma filter_none (p : Event -> bool) (t : list Event) :
  Forall (fun e => p e = false) t -> filter p t = [].
Proof.
  induction 1 as [| e t He Ht IH]; simpl; [reflexivity |]. now rewrite He.
Qed.

Lemma filter_logs (p : Event -> bool) (rows : list Row) :
  (forall line, p (LogLine line) = false) ->
  filter p (map (fun row => LogLine (renderRow row)) rows) = [].
Proof.
  intros Hp. induction rows as [| row rows IH]; simpl; [reflexivity |].
  now rewrite Hp.
Qed.

(** Before the output directory is made, nothing is done for the archive,
    and the function does not end with [true]. *)
Lemma prelude_quiet :
  Forall (fun e => isArchiveWork e = false) (fst (preludeRun w o)) /\
  snd (preludeRun w o) <> inl (Ok true).
Proof.
  unfold preludeRun, manifestCheckRun, promptLog.
  destruct (negb (existsSync w resolvedPath) || negb (isDirectory w resolvedPath));
    [split; [repeat constructor | discriminate] |].
  destruct (negb (existsSync w manifestPath));
    [destruct (confirm w confirmMessage) as [[|] | e];
     [destruct (initExtension w (extensionPath o)) as [[|] | e] | |] |];
    cbn [fst snd app];
    try (split; [repeat constructor | discriminate]);
    (destruct (negb (validateManifest w manifestPath));
     [| destruct (readManifest w manifestPath) as [manifest | [message |]]]);
    cbn [fst snd app]; (split; [repeat constructor | discriminate]).
Qed.

Lemma prelude_reaches (t : list Event) (manifest : Manifest) :
  preludeRun w o = (t, inr manifest) ->
  existsSync w resolvedPath = true /\
  isDirectory w resolvedPath = true /\
  (existsSync w manifestPath = true \/
   confirm w confirmMessage = Ok true /\
   initExtension w (extensionPath o) = Ok true) /\
  validateManifest w manifestPath = true /\
  readManifest w manifestPath = Ok manifest /\
  t = fst (manifestCheckRun w o) ++ [LogLine (js "Validating manifest...")].
Proof.
  unfold preludeRun, manifestCheckRun.
  destruct (existsSync w resolvedPath); [| discriminate].
  destruct (isDirectory w resolvedPath); [| discriminate].
  cbn [negb orb].
  destruct (existsSync w manifestPath); cbn [negb].
  - destruct (validateManifest w manifestPath); [| discriminate].
    cbn [negb].
    destruct (readManifest w manifestPath) as [m | e]; [| discriminate].
    intros Heq. injection Heq as <- <-. repeat split. now left.
  - destruct (confirm w confirmMessage) as [[|] | e]; try discriminate.
    destruct (initExtension w (extensionPath o)) as [[|] | e];
      try discriminate.
    destruct (validateManifest w manifestPath); [| discriminate].
    cbn [negb].
    destruct (readManifest w manifestPath) as [m | e]; [| discriminate].
    intros Heq. injection Heq as <- <-. repeat split. now right.
Qed.

Lemma reaches_prelude (manifest : Manifest) :
  reachesArchiveStage w o manifest ->
  preludeRun w o
  = (fst (manifestCheckRun w o) ++ [LogLine (js "Validating manifest...")],
     inr manifest).
Proof.
  intros (Hdir & Hisdir & Hmanifest & Hvalid & Hread & _).
  unfold preludeRun, manifestCheckRun.
  rewrite Hdir, Hisdir, Hvalid, Hread. cbn [negb orb].
  destruct (existsSync w manifestPath); cbn [negb]; [reflexivity |].
  destruct Hmanifest as [Hex | [Hconfirm Hinit]]; [discriminate |].
  now rewrite Hconfirm, Hinit.
Qed.

(** The run of an invocation that gets to the [try] statement. *)
Lemma reaches_run (manifest : Manifest) :
  reachesArchiveStage w o manifest ->
  packExtension w o
  = ((fst (manifestCheckRun w o) ++ [LogLine (js "Validating manifest...")])
     ++ MkdirSync outputDir true :: fst (stageRun w o manifest),
     Ok (snd (stageRun w o manifest))).
Proof.
  intros Hreach. rewrite packExtension_packRun. unfold packRun.
  rewrite (reaches_prelude Hreach).
  destruct Hreach as (_ & _ & _ & _ & _ & Hmkdir). now rewrite Hmkdir.
Qed.

Lemma errorLog_filter (p : Event -> bool) (e : thrown) :
  (forall line, p (ErrorLine line) = false) -> filter p (errorLog e) = [].
Proof. intros Hp. destruct e; simpl; now rewrite Hp. Qed.

Lemma reportLog_filter (p : Event -> bool) (manifest : Manifest)
    (discovered : FileTable) :
  (forall line, p (LogLine line) = false) ->
  filter p (reportLog w o manifest discovered) = [].
Proof.
  intros Hp. unfold reportLog. simpl. rewrite !Hp. now apply filter_logs.
Qed.

Lemma detailsLog_filter (p : Event -> bool) (manifest : Manifest)
    (discovered : FileTable) (ignoredCount : Z) (zipData : bytes) :
  (forall line, p (LogLine line) = false) ->
  filter p (detailsLog w o manifest discovered ignoredCount zipData) = [].
Proof. intros Hp. unfold detailsLog. simpl. now rewrite !Hp. Qed.

(** The [try] statement, by the outcome of the discovery, of the build and
    of the write. *)
Lemma stage_discovery_throws (manifest : Manifest) (e : thrown) :
  discovery w resolvedPath = Throw e ->
  snd (stageRun w o manifest) = false /\
  filter isZip (fst (stageRun w o manifest)) = [] /\
  filter isWrite (fst (stageRun w o manifest)) = [].
Proof.
  unfold discovery, stageRun.
  destruct (readDxtIgnorePatterns w resolvedPath) as [patterns | e'].
  - destruct (getAllFilesWithCount w resolvedPath resolvedPath patterns)
      as [[discovered ignoredCount] | e'']; [discriminate |].
    intros _. cbn [fst snd filter isZip isWrite].
    now rewrite !errorLog_filter.
  - intros _. cbn [fst snd filter isZip isWrite].
    now rewrite !errorLog_filter.
Qed.

Lemma stage_discovered (manifest : Manifest) (discovered : FileTable)
    (ignoredCount : Z) :
  discovery w resolvedPath = Ok (discovered, ignoredCount) ->
  exists before,
    filter isZip before = [] /\ filter isWrite before = [] /\
    match zipSync discovered zipOptions with
    | Throw e =>
        stageRun w o manifest
        = (before ++ ZipSync discovered zipOptions :: errorLog e, false)
    | Ok zipData =>
        match writeFileSync w finalOutputPath zipData with
        | Throw e =>
            stageRun w o manifest
            = (before
               ++ ZipSync discovered zipOptions
               :: WriteFileSync finalOutputPath zipData :: errorLog e,
               false)
        | Ok _ =>
            stageRun w o manifest
            = (before
               ++ ZipSync discovered zipOptions
               :: WriteFileSync finalOutputPath zipData
               :: detailsLog w o manifest discovered ignoredCount zipData,
               true)
        end
    end.
Proof.
  unfold discovery, stageRun.
  destruct (readDxtIgnorePatterns w resolvedPath) as [patterns | e'];
    [| discriminate].
  destruct (getAllFilesWithCount w resolvedPath resolvedPath patterns)
    as [[discovered' ignoredCount'] | e'']; [| discriminate].
  intros Heq. injection Heq as -> ->.
  eexists. split; [| split].
  3: { destruct (zipSync discovered zipOptions) as [zipData | e];
       [destruct (writeFileSync w finalOutputPath zipData) as [[] | e] |];
       reflexivity. }
  - cbn [filter isZip]. now apply reportLog_filter.
  - cbn [filter isWrite]. now apply reportLog_filter.
Qed.

Lemma quiet_filter (p : Event -> bool) (t : list Event) :
  (forall e, p e = true -> isArchiveWork e = true) ->
  Forall (fun e => isArchiveWork e = false) t -> filter p t = [].
Proof.
  intros Hp Ht. apply filter_none. eapply Forall_impl; [| exact Ht].
  intros e He. destruct (p e) eqn:Hpe; [| reflexivity].
  apply Hp in Hpe. congruence.
Qed.

Lemma isWrite_work (e : Event) : isWrite e = true -> isArchiveWork e = true.
Proof. now destruct e. Qed.

Lemma isZip_work (e : Event) : isZip e = true -> isArchiveWork e = true.
Proof. now destruct e. Qed.

Lemma isDiscovery_work (e : Event) :
  isDiscovery e = true -> isArchiveWork e = true.
Proof. now destruct e. Qed.

(** An invocation that gets to the [try] statement: what went before made
    nothing for the archive, then the output directory is made, then the
    [try] statement runs and the promise is its boolean. *)
Lemma reaches_run_quiet (manifest : Manifest) :
  reachesArchiveStage w o manifest ->
  exists pre,
    Forall (fun e => isArchiveWork e = false) pre /\
    packExtension w o
    = (pre ++ MkdirSync outputDir true :: fst (stageRun w o manifest),
       Ok (snd (stageRun w o manifest))).
Proof.
  intros Hreach. eexists. split; [| now apply reaches_run].
  pose proof prelude_quiet as [Hq _].
  now rewrite (reaches_prelude Hreach) in Hq.
Qed.

(** An invocation that does not get there does no discovery, builds
    nothing, writes nothing and does not succeed. *)
Lemma stops_or_reaches :
  (exists manifest, reachesArchiveStage w o manifest) \/
  (filter isDiscovery (fst (packExtension w o)) = [] /\
   filter isZip (fst (packExtension w o)) = [] /\
   filter isWrite (fst (packExtension w o)) = [] /\
   snd (packExtension w o) <> Ok true).
Proof.
  rewrite packExtension_packRun. unfold packRun.
  pose proof prelude_quiet as [Hq Hres].
  destruct (preludeRun w o) as [t [res | manifest]] eqn:Hprelude; cbn [fst snd] in *.
  - right. repeat split.
    + apply quiet_filter; [apply isDiscovery_work | assumption].
    + apply quiet_filter; [apply isZip_work | assumption].
    + apply quiet_filter; [apply isWrite_work | assumption].
    + congruence.
  - destruct (mkdirSync w outputDir) as [[] | e] eqn:Hmkdir.
    + left. exists manifest.
      apply prelude_reaches in Hprelude
        as (Hdir & Hisdir & Hmanifest & Hvalid & Hread & _).
      repeat split; assumption.
    + right. cbn [fst snd]. rewrite !filter_app. cbn [filter isDiscovery isZip isWrite].
      rewrite !app_nil_r. repeat split.
      * apply quiet_filter; [apply isDiscovery_work | assumption].
      * apply quiet_filter; [apply isZip_work | assumption].
      * apply quiet_filter; [apply isWrite_work | assumption].
      * discriminate.
Qed.

Lemma In_filter_write (p : jsstring) (data : bytes) (t : list Event) :
  In (WriteFileSync p data) t -> In (WriteFileSync p data) (filter isWrite t).
Proof. intros Hin. now apply filter_In. Qed.

(** Every write of an invocation: it got to the [try] statement, the
    discovery returned, [zipSync] returned the whole buffer [data], and the
    write of [data] to the output path is the event right after the build;
    nothing is written before or after it. *)
Lemma write_of_run (p : jsstring) (data : bytes) :
  In (WriteFileSync p data) (fst (packExtension w o)) ->
  exists manifest discovered ignoredCount pre post,
    reachesArchiveStage w o manifest /\
    discovery w resolvedPath = Ok (discovered, ignoredCount) /\
    zipSync discovered zipOptions = Ok data /\
    p = finalOutputPath /\
    fst (packExtension w o)
    = pre ++ ZipSync discovered zipOptions :: WriteFileSync p data :: post /\
    filter isWrite pre = [] /\ filter isZip pre = [] /\
    filter isWrite post = [] /\
    (snd (packExtension w o) = Ok true ->
     post = detailsLog w o manifest discovered ignoredCount data).
Proof.
  intros Hin. apply In_filter_write in Hin.
  destruct stops_or_reaches as [[manifest Hreach] | (_ & _ & Hnone & _)];
    [| now rewrite Hnone in Hin].
  destruct (reaches_run_quiet Hreach) as (pre0 & Hquiet & Hrun).
  rewrite Hrun in *. cbn [fst snd] in *.
  assert (Hw0 : filter isWrite pre0 = [])
    by (apply quiet_filter; [apply isWrite_work | assumption]).
  assert (Hz0 : filter isZip pre0 = [])
    by (apply quiet_filter; [apply isZip_work | assumption]).
  rewrite filter_app, Hw0 in Hin. cbn [app filter isWrite] in Hin.
  destruct (discovery w resolvedPath) as [[discovered ignoredCount] | e]
    eqn:Hdisc.
  - destruct (stage_discovered manifest Hdisc) as (before & Hbz & Hbw & Hstage).
    exists manifest, discovered, ignoredCount.
    destruct (zipSync discovered zipOptions) as [zipData | e] eqn:Hzip.
    + assert (Hfst : exists post,
                 filter isWrite post = [] /\
                 fst (stageRun w o manifest)
                 = before ++ ZipSync discovered zipOptions
                   :: WriteFileSync finalOutputPath zipData :: post /\
                 (snd (stageRun w o manifest) = true ->
                  post = detailsLog w o manifest discovered ignoredCount zipData)).
      { destruct (writeFileSync w finalOutputPath zipData) as [[] | e];
          rewrite Hstage; eexists; cbn [fst snd];
          (split; [| split; [reflexivity |]]).
        - now apply detailsLog_filter.
        - reflexivity.
        - now apply errorLog_filter.
        - discriminate. }
      destruct Hfst as (post & Hpost & Hfst & Hsuccess).
      rewrite Hfst in Hin |- *.
      rewrite filter_app, Hbw in Hin. cbn [app filter isWrite] in Hin.
      rewrite Hpost in Hin. destruct Hin as [Heq | []].
      injection Heq as <- <-.
      exists (pre0 ++ MkdirSync outputDir true :: before), post.
      split; [exact Hreach |]. split; [reflexivity |].
      split; [reflexivity |]. split; [reflexivity |].
      split; [now rewrite <- app_assoc |].
      split; [rewrite filter_app, Hw0; cbn [app filter isWrite]; assumption |].
      split; [rewrite filter_app, Hz0; cbn [app filter isZip]; assumption |].
      split; [assumption |].
      intros Hok. apply Hsuccess. congruence.
    + rewrite Hstage in Hin. cbn [fst] in Hin.
      rewrite filter_app, Hbw in Hin. cbn [app filter isWrite] in Hin.
      rewrite errorLog_filter in Hin by reflexivity. contradiction.
  - destruct (stage_discovery_throws manifest Hdisc) as (_ & _ & Hnone).
    rewrite Hnone in Hin. contradiction.
Qed.

(** The [try] statement begins with the discovery. *)
Lemma stage_head (manifest : Manifest) :
  exists rest, fst (stageRun w o manifest) = ReadIgnore resolvedPath :: rest.
Proof.
  unfold stageRun.
  destruct (readDxtIgnorePatterns w resolvedPath) as [patterns | e];
    [| now eexists].
  destruct (getAllFilesWithCount w resolvedPath resolvedPath patterns)
    as [[discovered ignoredCount] | e]; [| now eexists].
  destruct (zipSync discovered zipOptions) as [zipData | e];
    [destruct (writeFileSync w finalOutputPath zipData) as [[] | e] |];
    now eexists.
Qed.

(** A successful invocation has written the archive. *)
Lemma success_writes :
  snd (packExtension w o) = Ok true ->
  exists data, In (WriteFileSync finalOutputPath data) (fst (packExtension w o)).
Proof.
  intros Hok.
  destruct stops_or_reaches as [[manifest Hreach] | (_ & _ & _ & Hnot)];
    [| contradiction].
  destruct (reaches_run_quiet Hreach) as (pre0 & _ & Hrun).
  rewrite Hrun in *. cbn [fst snd] in *.
  destruct (discovery w resolvedPath) as [[discovered ignoredCount] | e]
    eqn:Hdisc.
  - destruct (stage_discovered manifest Hdisc) as (before & _ & _ & Hstage).
    destruct (zipSync discovered zipOptions) as [zipData | e];
      [destruct (writeFileSync w finalOutputPath zipData) as [[] | e] |];
      rewrite Hstage in *; cbn [fst snd] in *; try discriminate.
    exists zipData. apply in_or_app. right. right. apply in_or_app. right.
    right. now left.
  - destruct (stage_discovery_throws manifest Hdisc) as (Hfalse & _).
    rewrite Hfalse in Hok. discriminate.
Qed.

(** When the discovery or the build throws, the promise is [false], nothing
    is written, and the output directory has been made. *)
Lemma failed_stage (manifest : Manifest) :
  reachesArchiveStage w o manifest ->
  (exists e, discovery w resolvedPath = Throw e) \/
  (exists discovered ignoredCount e,
     discovery w resolvedPath = Ok (discovered, ignoredCount) /\
     zipSync discovered zipOptions = Throw e) ->
  snd (packExtension w o) = Ok false /\
  filter isWrite (fst (packExtension w o)) = [] /\
  In (MkdirSync outputDir true) (fst (packExtension w o)).
Proof.
  intros Hreach Hfail.
  destruct (reaches_run_quiet Hreach) as (pre0 & Hquiet & Hrun).
  rewrite Hrun. cbn [fst snd].
  assert (Hw0 : filter isWrite pre0 = [])
    by (apply quiet_filter; [apply isWrite_work | assumption]).
  rewrite filter_app, Hw0. cbn [app filter isWrite].
  assert (Hmk : forall rest, In (MkdirSync outputDir true)
                               (pre0 ++ MkdirSync outputDir true :: rest))
    by (intros rest; apply in_or_app; right; now left).
  destruct Hfail as [[e Hdisc] | (discovered & ignoredCount & e & Hdisc & Hzip)].
  - destruct (stage_discovery_throws manifest Hdisc) as (Hfalse & _ & Hnone).
    rewrite Hfalse, Hnone. auto.
  - destruct (stage_discovered manifest Hdisc) as (before & _ & Hbw & Hstage).
    rewrite Hzip in Hstage. rewrite Hstage. cbn [fst snd].
    rewrite filter_app, Hbw. cbn [app filter isWrite].
    rewrite errorLog_filter by reflexivity. auto.
Qed.

End RunFacts.

(** ** The claims about the run *)

(** C6. In an invocation that gets to the [try] statement, when the
    discovery throws, or [zipSync] throws, the promise is [false] and
    nothing is written. In every invocation a write of the archive is the
    event right after the build that returned its whole buffer, and is the
    only write. *)
Theorem no_archive_when_discovery_or_build_throws (H : Host) (w : World)
    (o : PackOptions) :
  let resolvedPath := resolve (cwd w) (extensionPath o) in
  let zipOptions := mkZipOptions 9 (now w) in
  let run := packExtension w o in
  (forall manifest,
     reachesArchiveStage w o manifest ->
     (forall e,
        discovery w resolvedPath = Throw e ->
        snd run = Ok false /\ filter isWrite (fst run) = []) /\
     (forall discovered ignoredCount e,
        discovery w resolvedPath = Ok (discovered, ignoredCount) ->
        zipSync discovered zipOptions = Throw e ->
        snd run = Ok false /\ filter isWrite (fst run) = [])) /\
  (forall p data,
     In (WriteFileSync p data) (fst run) ->
     exists discovered ignoredCount pre post,
       discovery w resolvedPath = Ok (discovered, ignoredCount) /\
       zipSync discovered zipOptions = Ok data /\
       fst run
       = pre ++ ZipSync discovered zipOptions :: WriteFileSync p data :: post /\
       filter isWrite pre = [] /\ filter isWrite post = []).
Proof.
  intros resolvedPath zipOptions run. split.
  - intros manifest Hreach. split.
    + intros e Hdisc.
      destruct (failed_stage Hreach) as (Hres & Hnone & _);
        [left; now exists e | now split].
    + intros discovered ignoredCount e Hdisc Hzip.
      destruct (failed_stage Hreach) as (Hres & Hnone & _);
        [right; now exists discovered, ignoredCount, e | now split].
  - intros p data Hin.
    destruct (write_of_run w o p data Hin)
      as (manifest & discovered & ignoredCount & pre & post & _ & Hdisc
          & Hzip & _ & Htrace & Hpre & _ & Hpost & _).
    now exists discovered, ignoredCount, pre, post.
Qed.

Lemma unreadableWorld_reaches :
  @reachesArchiveStage posix unreadableWorld demoOptions demoManifest.
Proof. repeat split. now left. Qed.

Lemma no_archive_when_discovery_or_build_throws_witness :
  @reachesArchiveStage posix unreadableWorld demoOptions demoManifest /\
  @discovery unreadableWorld (js "/work/ext")
  = Throw (ErrorObject (js "EACCES: permission denied")) /\
  snd (@packExtension posix unreadableWorld demoOptions) = Ok false /\
  filter isWrite (fst (@packExtension posix unreadableWorld demoOptions)) = [].
Proof.
  split; [exact unreadableWorld_reaches |]. split; [reflexivity |].
  apply (proj1 (proj1 (@no_archive_when_discovery_or_build_throws posix
                         unreadableWorld demoOptions)
                  demoManifest unreadableWorld_reaches)
           (ErrorObject (js "EACCES: permission denied"))).
  reflexivity.
Defined.



(** C10. In an invocation that gets to the [try] statement, the output
    directory, [join(finalOutputPath, "..")], is made with the recursive
    option before any event of the discovery; when afterwards the discovery
    or the build throws, the promise is [false] and the making of the
    directory is among what the invocation has done. *)
Theorem output_directory_made_before_discovery (H : Host) (w : World)
    (o : PackOptions) (manifest : Manifest) :
  let resolvedPath := resolve (cwd w) (extensionPath o) in
  let outputDir := join (finalOutputPathOf w resolvedPath o) (js "..") in
  let run := packExtension w o in
  reachesArchiveStage w o manifest ->
  (exists pre rest,
     fst run
     = pre ++ MkdirSync outputDir true :: ReadIgnore resolvedPath :: rest /\
     filter isDiscovery pre = []) /\
  ((exists e, discovery w resolvedPath = Throw e) \/
   (exists discovered ignoredCount e,
      discovery w resolvedPath = Ok (discovered, ignoredCount) /\
      zipSync discovered (mkZipOptions 9 (now w)) = Throw e) ->
   snd run = Ok false /\ In (MkdirSync outputDir true) (fst run)).
Proof.
  intros resolvedPath outputDir run Hreach. split.
  - destruct (reaches_run_quiet Hreach) as (pre & Hquiet & Hrun).
    destruct (stage_head w o manifest) as [rest Hhead].
    exists pre, rest. split.
    + unfold run. rewrite Hrun. cbn [fst]. now rewrite Hhead.
    + apply quiet_filter; [apply isDiscovery_work | assumption].
  - intros Hfail. destruct (failed_stage Hreach Hfail) as (Hres & _ & Hin).
    now split.
Qed.

Lemma output_directory_made_before_discovery_witness :
  let run := @packExtension posix unreadableWorld demoOptions in
  @reachesArchiveStage posix unreadableWorld demoOptions demoManifest /\
  snd run = Ok false /\
  In (MkdirSync (js "/work/ext") true) (fst run).
Proof.
  intros run. split; [exact unreadableWorld_reaches |].
  apply (proj2 (@output_directory_made_before_discovery posix unreadableWorld
                  demoOptions demoManifest unreadableWorld_reaches)).
  left. now eexists.
Defined.

(** C7, as the code has it. When the extension directory is there and has
    no [manifest.json], the invocation begins by asking whether to create
    one. When the answer is no, the promise is [false], [initExtension] is
    not called, nothing is built and nothing is written. When the answer is
    yes, [initExtension] is called with the extension path; when it returns
    [false] the promise is [false], nothing is built and nothing is written;
    when it throws, the promise is rejected with what it threw and the
    invocation does nothing more. When the prompt throws, the promise is
    rejected with what it threw and the invocation does nothing more. *)
Theorem missing_manifest_asks_then_fails (H : Host) (w : World)
    (o : PackOptions) :
  let resolvedPath := resolve (cwd w) (extensionPath o) in
  let run := packExtension w o in
  let asked :=
    [ LogLine (js "No manifest.json found in " ++ extensionPath o);
      ConfirmPrompt confirmMessage ] in
  existsSync w resolvedPath = true ->
  isDirectory w resolvedPath = true ->
  existsSync w (join resolvedPath (js "manifest.json")) = false ->
  (exists rest, fst run = asked ++ rest) /\
  (confirm w confirmMessage = Ok false ->
   snd run = Ok false /\ filter isInit (fst run) = [] /\
   filter isZip (fst run) = [] /\ filter isWrite (fst run) = []) /\
  (confirm w confirmMessage = Ok true ->
   (exists rest,
      fst run = asked ++ InitExtension (extensionPath o) :: rest) /\
   (initExtension w (extensionPath o) = Ok false ->
    snd run = Ok false /\
    filter isZip (fst run) = [] /\ filter isWrite (fst run) = []) /\
   (forall e,
      initExtension w (extensionPath o) = Throw e ->
      snd run = Throw e /\
      fst run = asked ++ [InitExtension (extensionPath o)])) /\
  (forall e,
     confirm w confirmMessage = Throw e ->
     snd run = Throw e /\ fst run = asked).
Proof.
  intros resolvedPath run asked Hdir Hisdir Hmissing.
  unfold run. rewrite packExtension_packRun.
  unfold packRun, preludeRun, manifestCheckRun, promptLog.
  fold resolvedPath. rewrite Hdir, Hisdir, Hmissing. cbn [negb orb].
  split; [| split; [| split]].
  - destruct (confirm w confirmMessage) as [[|] | e];
      [destruct (initExtension w (extensionPath o)) as [[|] | e] | |];
      try (eexists; reflexivity);
      try (exists []; cbn [fst]; now rewrite app_nil_r).
    destruct (negb (validateManifest w (join resolvedPath (js "manifest.json"))));
      [eexists; reflexivity |].
    destruct (readManifest w (join resolvedPath (js "manifest.json")))
      as [manifest | e]; [| eexists; reflexivity].
    destruct (mkdirSync w _) as [[] | e]; eexists; reflexivity.
  - intros ->. repeat split.
  - intros ->. split; [| split].
    + destruct (initExtension w (extensionPath o)) as [[|] | e];
        try (eexists; reflexivity).
      destruct (negb (validateManifest w (join resolvedPath (js "manifest.json"))));
        [eexists; reflexivity |].
      destruct (readManifest w (join resolvedPath (js "manifest.json")))
        as [manifest | e]; [| eexists; reflexivity].
      destruct (mkdirSync w _) as [[] | e]; eexists; reflexivity.
    + intros ->. repeat split.
    + intros e ->. split; reflexivity.
  - intros e ->. split; reflexivity.
Qed.

Lemma missing_manifest_asks_then_fails_witness :
  let declined := @packExtension posix declinedWorld demoOptions in
  let failed := @packExtension posix creationFailsWorld demoOptions in
  let thrown := @packExtension posix creationThrowsWorld demoOptions in
  existsSync declinedWorld (js "/work/ext") = true /\
  existsSync declinedWorld (js "/work/ext/manifest.json") = false /\
  confirm declinedWorld confirmMessage = Ok false /\
  (snd declined = Ok false /\ filter isInit (fst declined) = [] /\
   filter isZip (fst declined) = [] /\ filter isWrite (fst declined) = []) /\
  initExtension creationFailsWorld (js ".") = Ok false /\
  (snd failed = Ok false /\
   filter isZip (fst failed) = [] /\ filter isWrite (fst failed) = []) /\
  initExtension creationThrowsWorld (js ".") = Throw cannotCreate /\
  (snd thrown = Throw cannotCreate /\
   fst thrown
   = [ LogLine (js "No manifest.json found in .");
       ConfirmPrompt confirmMessage; InitExtension (js ".") ]).
Proof.
  intros declined failed thrown. split; [reflexivity |].
  split; [reflexivity |]. split; [reflexivity |].
  split; [| split; [reflexivity | split; [| split; [reflexivity |]]]].
  - apply (proj1 (proj2 (@missing_manifest_asks_then_fails posix declinedWorld
                           demoOptions eq_refl eq_refl eq_refl))).
    reflexivity.
  - apply (proj1 (proj2 (proj1 (proj2 (proj2
             (@missing_manifest_asks_then_fails posix creationFailsWorld
                demoOptions eq_refl eq_refl eq_refl))) eq_refl))).
    reflexivity.
  - apply (proj2 (proj2 (proj1 (proj2 (proj2
             (@missing_manifest_asks_then_fails posix creationThrowsWorld
                demoOptions eq_refl eq_refl eq_refl))) eq_refl))).
    reflexivity.
Defined.

(** C7, as the specification has it, fails: the prompt and the creation of
    the manifest are awaited outside every [try] statement. When the
    creation fails by throwing, or the prompt does, the promise is rejected:
    the invocation does not return [false]. *)
Lemma failed_creation_rejects :
  let asked :=
    [ LogLine (js "No manifest.json found in .");
      ConfirmPrompt confirmMessage ] in
  existsSync creationThrowsWorld (js "/work/ext/manifest.json") = false /\
  @packExtension posix creationThrowsWorld demoOptions
  = (asked ++ [InitExtension (js ".")], Throw cannotCreate) /\
  snd (@packExtension posix creationThrowsWorld demoOptions) <> Ok false /\
  @packExtension posix promptThrowsWorld demoOptions
  = (asked, Throw promptClosed) /\
  snd (@packExtension posix promptThrowsWorld demoOptions) <> Ok false.
Proof.
  intros asked. split; [reflexivity |].
  split; [vm_compute; reflexivity |].
  split; [vm_compute; discriminate |].
  split; [vm_compute; reflexivity |].
  vm_compute; discriminate.
Qed.




(** ** More on the filename sanitizer *)

Section SanitizeShape.

Variable unicodeLower : jsstring -> jsstring.

Lemma firstn_noDouble (n : nat) (s : jsstring) :
  noDoubleHyphen s = true -> noDoubleHyphen (firstn n s) = true.
Proof.
  intros Hs. apply noDouble_prefix with (skipn n s).
  now rewrite firstn_skipn.
Qed.

Lemma replaceWhitespaceRuns_Forall (P Q : N -> Prop) (s : jsstring) :
  (forall c, P c -> isWhitespace c = false -> Q c) ->
  Q HYPHEN ->
  Forall P s -> Forall Q (replaceWhitespaceRuns s).
Proof.
  intros Hkeep Hhyphen. induction 1 as [| c r Hc Hr IH]; simpl;
    [constructor |].
  destruct (isWhitespace c) eqn:Hw.
  - destruct r as [| d r']; [now repeat constructor |].
    destruct (isWhitespace d); [exact IH | now constructor].
  - constructor; [now apply Hkeep | exact IH].
Qed.

Lemma dropLeadingHyphens_all (s : jsstring) :
  Forall (fun c => isHyphen c = true) s -> dropLeadingHyphens s = [].
Proof.
  induction 1 as [| c r Hc Hr IH]; simpl; [reflexivity |]. now rewrite Hc.
Qed.

(** X1. Whatever the name, the sanitized name has at most 100 code units,
    all of them of [[a-z0-9-_.]], does not begin with a hyphen and has no
    two hyphens side by side. *)
Theorem sanitize_result_shape (name : jsstring) :
  let out := sanitizeNameForFilename unicodeLower name in
  (List.length out <= 100)%nat /\
  Forall (fun c => isAllowed c = true) out /\
  isHyphen (hd 0%N out) = false /\
  noDoubleHyphen out = true.
Proof.
  intros out. split; [apply sanitize_length |].
  split; [apply sanitize_allowed |]. split.
  - destruct out as [| c r] eqn:Hout; [reflexivity |].
    now apply (sanitize_no_leading_hyphen unicodeLower name Hout).
  - unfold out, sanitizeNameForFilename, substring0.
    apply firstn_noDouble, noDouble_trim, collapseHyphens_noDouble.
Qed.

(** X2. When the truncation to 100 code units cuts nothing, sanitizing the
    sanitized name again changes nothing, and the sanitized name does not
    end with a hyphen. *)
Theorem sanitize_idempotent_below_limit (name : jsstring) :
  (List.length (beforeTruncation unicodeLower name) <= 100)%nat ->
  let once := sanitizeNameForFilename unicodeLower name in
  sanitizeNameForFilename unicodeLower once = once /\
  isHyphen (last once 0%N) = false.
Proof.
  intros Hlen once.
  destruct (sanitize_idempotent_untruncated unicodeLower name Hlen)
    as [Hidem Hlast].
  split; [exact Hidem |].
  fold once in Hlast.
  destruct (rev once) as [| c front] eqn:Hrev.
  - apply (f_equal (@rev N)) in Hrev. rewrite rev_involutive in Hrev.
    now rewrite Hrev.
  - apply (f_equal (@rev N)) in Hrev. rewrite rev_involutive in Hrev.
    simpl in Hrev. rewrite Hrev, last_last. now apply (Hlast (rev front)).
Qed.

(** X3. A name that is already in the form the sanitizer produces passes
    unchanged: at most 100 code units, all of [[a-z0-9-_.]], no hyphen
    first or last and no two hyphens side by side. *)
Theorem sanitize_keeps_clean_names (name : jsstring) :
  (List.length name <= 100)%nat ->
  Forall (fun c => isAllowed c = true) name ->
  isHyphen (hd 0%N name) = false ->
  isHyphen (last name 0%N) = false ->
  noDoubleHyphen name = true ->
  sanitizeNameForFilename unicodeLower name = name.
Proof.
  intros Hlen Hallowed Hfirst Hlast Hnd.
  unfold sanitizeNameForFilename, substring0.
  rewrite toLowerCase_allowed, replaceWhitespaceRuns_allowed,
    stripDisallowed_allowed, noDouble_collapse by assumption.
  assert (Hlead : dropLeadingHyphens name = name).
  { apply dropLeadingHyphens_fixed. intros c r ->. exact Hfirst. }
  assert (Htrail : dropTrailingHyphens name = name).
  { unfold dropTrailingHyphens.
    rewrite dropLeadingHyphens_fixed; [apply rev_involutive |].
    intros c r Hrev. apply (f_equal (@rev N)) in Hrev.
    rewrite rev_involutive in Hrev. simpl in Hrev.
    rewrite Hrev, last_last in Hlast. exact Hlast. }
  unfold trimHyphens. rewrite Hlead, Htrail. now apply firstn_all2.
Qed.

(** X4. A name whose lower-cased code units are all whitespace, hyphens or
    outside [[a-z0-9-_.]] is sanitized to the empty string. *)
Theorem sanitize_empty_without_allowed_units (name : jsstring) :
  Forall
    (fun c => isWhitespace c = true \/ isHyphen c = true \/ isAllowed c = false)
    (toLowerCase unicodeLower name) ->
  sanitizeNameForFilename unicodeLower name = [].
Proof.
  intros Hname. unfold sanitizeNameForFilename, substring0.
  assert (Hrws : Forall (fun c => isHyphen c = true \/ isAllowed c = false)
                   (replaceWhitespaceRuns (toLowerCase unicodeLower name))).
  { eapply replaceWhitespaceRuns_Forall; [| | exact Hname].
    - intros c [Hw | Hc] Hnw; [congruence | exact Hc].
    - now left. }
  assert (Hstrip : Forall (fun c => isHyphen c = true)
                     (stripDisallowed
                        (replaceWhitespaceRuns
                           (toLowerCase unicodeLower name)))).
  { unfold stripDisallowed. apply Forall_forall. intros c Hc.
    apply filter_In in Hc as [Hin Hallowed].
    rewrite Forall_forall in Hrws.
    destruct (Hrws c Hin) as [Hh | Hna]; [exact Hh | congruence]. }
  apply collapseHyphens_Forall in Hstrip.
  unfold trimHyphens. now rewrite (dropLeadingHyphens_all Hstrip).
Qed.

End SanitizeShape.

Lemma sanitize_idempotent_below_limit_witness :
  let once := sanitizeNameForFilename (fun s => s) (js "My  Ext!") in
  once = js "my-ext" /\
  sanitizeNameForFilename (fun s => s) once = once /\
  isHyphen (last once 0%N) = false.
Proof.
  split; [reflexivity |].
  apply (@sanitize_idempotent_below_limit (fun s => s) (js "My  Ext!")).
  vm_compute. lia.
Defined.

Lemma sanitize_keeps_clean_names_witness :
  sanitizeNameForFilename (fun s => s) (js "mssql-dxt_0.4") = js "mssql-dxt_0.4".
Proof.
  apply sanitize_keeps_clean_names.
  - vm_compute. lia.
  - vm_compute. repeat constructor.
  - reflexivity.
  - reflexivity.
  - reflexivity.
Defined.

Lemma sanitize_empty_without_allowed_units_witness :
  sanitizeNameForFilename (fun s => s) (js "  (!) -- ") = [].
Proof.
  apply sanitize_empty_without_allowed_units.
  apply Forall_forall. intros c Hc.
  assert (Hcheck : forallb
                     (fun c => isWhitespace c || isHyphen c || negb (isAllowed c))
                     (toLowerCase (fun s => s) (js "  (!) -- ")) = true)
    by reflexivity.
  rewrite forallb_forall in Hcheck. specialize (Hcheck c Hc).
  destruct (isWhitespace c); [now left |].
  destruct (isHyphen c); [right; now left |].
  destruct (isAllowed c); [discriminate Hcheck | right; now right].
Defined.

(** ** More on the size format *)

Lemma allBelow_spec (f : N -> bool) (n : nat) :
  allBelow f n = true -> forall k, (k < n)%nat -> f (N.of_nat k) = true.
Proof.
  induction n as [| n IH]; simpl; intros Hall k Hk; [lia |].
  apply andb_true_iff in Hall as [Hn Hall].
  destruct (Nat.eq_dec k n) as [-> | Hne]; [exact Hn |].
  apply IH; [exact Hall | lia].
Qed.

Lemma div_bounds (a b : Z) : 0 < b -> b * (a / b) <= a < b * (a / b + 1).
Proof.
  intros Hb. split; [apply Z.mul_div_le; lia |].
  replace (a / b + 1) with (Z.succ (a / b)) by lia.
  apply Z.mul_succ_div_gt; lia.
Qed.

(** A number below 10000 has at most four digits. *)
Lemma decimal_short (k : Z) :
  0 <= k < 10000 -> (List.length (decimal (Z.to_N k)) <= 4)%nat.
Proof.
  intros Hk.
  assert (Hall : allBelow (fun m => (List.length (decimal m) <=? 4)%nat)
                   (N.to_nat 10000) = true) by (vm_compute; reflexivity).
  pose proof (@allBelow_spec _ _ Hall (Z.to_nat k) ltac:(lia)) as Hle.
  apply Nat.leb_le in Hle.
  replace (N.of_nat (Z.to_nat k)) with (Z.to_N k) in Hle by lia.
  exact Hle.
Qed.

(** X5. Between 1024 and 1048575 bytes the number printed before ["kB"]
    is [n / 1024] rounded to tenths and lies between 1.0 and 1024.0; it is
    1024.0, and not yet a number of MB, from 1048525 bytes on. From 1048576
    bytes on, for a byte count below [2^53], the number printed before
    ["MB"] is at least 1.0. *)
Theorem formatFileSize_unit_bounds (n : Z) :
  (1024 <= n < 1048576 ->
   exists tenths,
     roundsTo n 1024 tenths /\ 10 <= tenths <= 10240 /\
     (tenths = 10240 <-> 1048525 <= n) /\
     formatFileSize n
     = decimal (Z.to_N (tenths / 10)) ++ js "."
       ++ [digitUnit (tenths mod 10)] ++ js "kB") /\
  (1048576 <= n < byteCountLimit ->
   exists tenths,
     roundsTo n 1048576 tenths /\ 10 <= tenths /\
     formatFileSize n
     = decimal (Z.to_N (tenths / 10)) ++ js "."
       ++ [digitUnit (tenths mod 10)] ++ js "MB").
Proof.
  split.
  - intros Hn. exists ((20 * n + 1024) / (2 * 1024)).
    unfold roundsTo, formatFileSize, toFixed1.
    destruct (Z.ltb_spec n 1024); [lia |].
    destruct (Z.ltb_spec n (1024 * 1024)); [| lia].
    set (t := (20 * n + 1024) / (2 * 1024)).
    assert (Ht : 2048 * t <= 20 * n + 1024 < 2048 * (t + 1))
      by (unfold t; split;
          [apply Z.mul_div_le; lia
          | replace (t + 1) with (Z.succ ((20 * n + 1024) / (2 * 1024))) by (unfold t; lia);
            apply Z.mul_succ_div_gt; lia]).
    split; [lia |]. split; [lia |]. split; [lia |].
    rewrite (@decimal_digit (t mod 10))
      by (apply Z.mod_pos_bound; lia).
    now rewrite <- !app_assoc.
  - intros Hn. exists ((20 * n + 1024 * 1024) / (2 * (1024 * 1024))).
    unfold roundsTo, formatFileSize, toFixed1.
    destruct (Z.ltb_spec n 1024); [lia |].
    destruct (Z.ltb_spec n (1024 * 1024)); [lia |].
    set (t := (20 * n + 1024 * 1024) / (2 * (1024 * 1024))).
    assert (Ht : 2097152 * t <= 20 * n + 1048576 < 2097152 * (t + 1))
      by (unfold t; split;
          [apply Z.mul_div_le; lia
          | replace (t + 1)
              with (Z.succ ((20 * n + 1024 * 1024) / (2 * (1024 * 1024))))
              by (unfold t; lia);
            apply Z.mul_succ_div_gt; lia]).
    split; [lia |]. split; [lia |].
    rewrite (@decimal_digit (t mod 10))
      by (apply Z.mod_pos_bound; lia).
    now rewrite <- !app_assoc.
Qed.

Lemma formatFileSize_unit_bounds_witness :
  1024 <= 1048575 < 1048576 /\
  exists tenths,
    roundsTo 1048575 1024 tenths /\ 10 <= tenths <= 10240 /\
    (tenths = 10240 <-> 1048525 <= 1048575) /\
    formatFileSize 1048575
    = decimal (Z.to_N (tenths / 10)) ++ js "."
      ++ [digitUnit (tenths mod 10)] ++ js "kB".
Proof.
  split; [lia |].
  apply (proj1 (formatFileSize_unit_bounds 1048575)). lia.
Defined.

(** X6. For a size up to 10485707571 bytes (9999.9MB when printed) the size
    column of a file line, [formatFileSize(size).padStart(8)], is exactly
    eight code units wide, so the path begins at the tenth. *)
Theorem size_column_is_eight_wide (n : Z) (p : jsstring) :
  0 <= n <= 10485707571 ->
  (List.length (formatFileSize n) <= 8)%nat /\
  List.length (padStart 8 (formatFileSize n)) = 8%nat /\
  renderRow (FileRow n p) = padStart 8 (formatFileSize n) ++ js " " ++ p.
Proof.
  intros Hn.
  assert (Hshort : (List.length (formatFileSize n) <= 8)%nat).
  { unfold formatFileSize, numberToString, toFixed1.
    destruct (Z.ltb_spec n 1024).
    - destruct (Z.ltb_spec n 0); [lia |].
      rewrite length_app. pose proof (@decimal_short n ltac:(lia)).
      simpl. lia.
    - destruct (Z.ltb_spec n (1024 * 1024)).
      + change (2 * 1024) with 2048.
        pose proof (@div_bounds (20 * n + 1024) 2048 ltac:(lia)) as Ht.
        set (t := (20 * n + 1024) / 2048) in *.
        pose proof (@div_bounds t 10 ltac:(lia)) as Hw.
        rewrite (@decimal_digit (t mod 10)) by (apply Z.mod_pos_bound; lia).
        rewrite !length_app.
        pose proof (@decimal_short (t / 10) ltac:(lia)). simpl. lia.
      + change (2 * (1024 * 1024)) with 2097152.
        change (1024 * 1024) with 1048576.
        pose proof (@div_bounds (20 * n + 1048576) 2097152 ltac:(lia)) as Ht.
        set (t := (20 * n + 1048576) / 2097152) in *.
        pose proof (@div_bounds t 10 ltac:(lia)) as Hw.
        rewrite (@decimal_digit (t mod 10)) by (apply Z.mod_pos_bound; lia).
        rewrite !length_app.
        pose proof (@decimal_short (t / 10) ltac:(lia)). simpl. lia. }
  split; [exact Hshort |]. split; [| reflexivity].
  unfold padStart. rewrite length_app, repeat_length. lia.
Qed.

Lemma size_column_is_eight_wide_witness :
  0 <= 1536 <= 10485707571 /\
  List.length (padStart 8 (formatFileSize 1536)) = 8%nat.
Proof.
  split; [lia |].
  apply (@size_column_is_eight_wide 1536 (js "server/main.py")). lia.
Defined.

(** ** More on the run of the pipeline *)

(** X7. When the resolved extension path does not exist or is no directory,
    the invocation logs one error line, naming the path as it was given,
    does nothing else and returns [false]. *)
Theorem directory_not_found_stops (H : Host) (w : World) (o : PackOptions) :
  let resolvedPath := resolve (cwd w) (extensionPath o) in
  existsSync w resolvedPath = false \/ isDirectory w resolvedPath = false ->
  packExtension w o
  = ([ErrorLine (js "ERROR: Directory not found: " ++ extensionPath o)],
     Ok false).
Proof.
  intros resolvedPath Hmissing. rewrite packExtension_packRun.
  unfold packRun, preludeRun. fold resolvedPath.
  destruct Hmissing as [-> | ->]; [reflexivity |].
  now rewrite orb_true_r.
Qed.

Lemma directory_not_found_stops_witness :
  let o := mkPackOptions (js "missing") None None in
  existsSync (demoWorld demoFiles 0) (js "/work/ext/missing") = false /\
  @packExtension posix (demoWorld demoFiles 0) o
  = ([ErrorLine (js "ERROR: Directory not found: missing")], Ok false).
Proof.
  intros o. split; [reflexivity |].
  apply (@directory_not_found_stops posix (demoWorld demoFiles 0) o).
  left. reflexivity.
Defined.

(** X8. Whatever an invocation does for the archive (making the output
    directory, discovery, build, write) it does after the directory was
    found and the manifest was validated and parsed: with a missing
    directory, an invalid manifest or a manifest that does not parse, none
    of it happens. *)
Theorem archive_work_needs_valid_manifest (H : Host) (w : World)
    (o : PackOptions) (e : Event) :
  let resolvedPath := resolve (cwd w) (extensionPath o) in
  let manifestPath := join resolvedPath (js "manifest.json") in
  In e (fst (packExtension w o)) ->
  isArchiveWork e = true ->
  existsSync w resolvedPath = true /\
  isDirectory w resolvedPath = true /\
  validateManifest w manifestPath = true /\
  exists manifest, readManifest w manifestPath = Ok manifest.
Proof.
  intros resolvedPath manifestPath Hin Hwork.
  rewrite packExtension_packRun in Hin. unfold packRun in Hin.
  pose proof (prelude_quiet w o) as [Hquiet _].
  destruct (preludeRun w o) as [t [res | manifest]] eqn:Hprelude;
    cbn [fst snd] in *.
  - rewrite Forall_forall in Hquiet. apply Hquiet in Hin. congruence.
  - apply prelude_reaches in Hprelude
      as (Hdir & Hisdir & _ & Hvalid & Hread & _).
    repeat split; try assumption. now exists manifest.
Qed.

Lemma archive_work_needs_valid_manifest_witness :
  let w := demoWorld demoFiles 1700000000000 in
  In (MkdirSync (js "/work/ext") true) (fst (@packExtension posix w demoOptions)) /\
  validateManifest w (js "/work/ext/manifest.json") = true.
Proof.
  intros w.
  assert (Hin : In (MkdirSync (js "/work/ext") true)
                  (fst (@packExtension posix w demoOptions)))
    by (vm_compute; tauto).
  split; [exact Hin |].
  apply (@archive_work_needs_valid_manifest posix w demoOptions _ Hin eq_refl).
Defined.

(** X9. Making the output directory is outside the [try] statement: when
    [mkdirSync] throws, the promise is rejected with what it threw, not
    fulfilled with [false]; nothing is logged about it and no discovery is
    begun. *)
Theorem mkdir_failure_rejects (H : Host) (w : World) (o : PackOptions)
    (manifest : Manifest) (e : thrown) :
  let resolvedPath := resolve (cwd w) (extensionPath o) in
  let manifestPath := join resolvedPath (js "manifest.json") in
  let outputDir := join (finalOutputPathOf w resolvedPath o) (js "..") in
  let run := packExtension w o in
  existsSync w resolvedPath = true ->
  isDirectory w resolvedPath = true ->
  existsSync w manifestPath = true ->
  validateManifest w manifestPath = true ->
  readManifest w manifestPath = Ok manifest ->
  mkdirSync w outputDir = Throw e ->
  run = ([LogLine (js "Validating manifest..."); MkdirSync outputDir true],
         Throw e).
Proof.
  intros resolvedPath manifestPath outputDir run Hdir Hisdir Hmanifest Hvalid
    Hread Hmkdir.
  unfold run. rewrite packExtension_packRun.
  unfold packRun, preludeRun, manifestCheckRun.
  fold resolvedPath. fold manifestPath. fold outputDir.
  rewrite Hdir, Hisdir, Hmanifest, Hvalid, Hread. cbn [negb orb app].
  now rewrite Hmkdir.
Qed.

Lemma mkdir_failure_rejects_witness :
  @packExtension posix (diskWorld (Throw readOnly) (Ok tt)) demoOptions
  = ([LogLine (js "Validating manifest..."); MkdirSync (js "/work/ext") true],
     Throw readOnly).
Proof.
  apply (@mkdir_failure_rejects posix (diskWorld (Throw readOnly) (Ok tt))
           demoOptions demoManifest readOnly);
    reflexivity.
Defined.

(** Before the output directory is made only the prompt and
    [initExtension] can make the function throw. *)
Lemma check_rejects (H : Host) (w : World) (o : PackOptions)
    (t : list Event) (e : thrown) :
  manifestCheckRun w o = (t, Some (Throw e)) ->
  confirm w confirmMessage = Throw e \/
  initExtension w (extensionPath o) = Throw e.
Proof.
  unfold manifestCheckRun.
  destruct (negb (existsSync w
                    (join (resolve (cwd w) (extensionPath o))
                       (js "manifest.json"))));
    [| intros Heq; discriminate Heq].
  destruct (confirm w confirmMessage) as [[|] | e0].
  - destruct (initExtension w (extensionPath o)) as [[|] | e0];
      intros Heq.
    + discriminate Heq.
    + injection Heq as _ Heq. discriminate Heq.
    + injection Heq as _ Heq. right. congruence.
  - intros Heq. injection Heq as _ Heq. discriminate Heq.
  - intros Heq. injection Heq as _ Heq. left. congruence.
Qed.

Lemma prelude_rejects (H : Host) (w : World) (o : PackOptions)
    (t : list Event) (e : thrown) :
  preludeRun w o = (t, inl (Throw e)) ->
  confirm w confirmMessage = Throw e \/
  initExtension w (extensionPath o) = Throw e.
Proof.
  unfold preludeRun.
  destruct (negb (existsSync w (resolve (cwd w) (extensionPath o)))
            || negb (isDirectory w (resolve (cwd w) (extensionPath o))));
    [intros Heq; injection Heq as _ Heq; discriminate Heq |].
  destruct (manifestCheckRun w o) as [t' [[b | e0] |]] eqn:Hcheck.
  - intros Heq. injection Heq as _ Heq. discriminate Heq.
  - intros Heq. injection Heq as _ Heq. subst e0.
    eapply check_rejects. exact Hcheck.
  - destruct (negb (validateManifest w
                      (join (resolve (cwd w) (extensionPath o))
                         (js "manifest.json"))));
      [intros Heq; injection Heq as _ Heq; discriminate Heq |].
    destruct (readManifest w
                (join (resolve (cwd w) (extensionPath o))
                   (js "manifest.json")));
      intros Heq; injection Heq as _ Heq; discriminate Heq.
Qed.

(** X10. The promise is rejected only by the prompt, by [initExtension] or
    by [mkdirSync]: what the discovery, the build or the write throw is
    caught and never leaves the function. *)
Theorem rejection_comes_from_outside_try (H : Host) (w : World)
    (o : PackOptions) (e : thrown) :
  let resolvedPath := resolve (cwd w) (extensionPath o) in
  let outputDir := join (finalOutputPathOf w resolvedPath o) (js "..") in
  snd (packExtension w o) = Throw e ->
  confirm w confirmMessage = Throw e \/
  initExtension w (extensionPath o) = Throw e \/
  mkdirSync w outputDir = Throw e.
Proof.
  intros resolvedPath outputDir. rewrite packExtension_packRun.
  unfold packRun. fold resolvedPath. fold outputDir.
  destruct (preludeRun w o) as [t [[b |e0] | manifest]] eqn:Hprelude.
  - discriminate.
  - cbn [snd]. intros Heq. injection Heq as ->.
    apply prelude_rejects in Hprelude. destruct Hprelude; auto.
  - destruct (mkdirSync w outputDir) as [[] | e0]; [discriminate |].
    cbn [snd]. intros Heq. injection Heq as ->. auto.
Qed.

Lemma rejection_comes_from_outside_try_witness :
  snd (@packExtension posix (diskWorld (Throw readOnly) (Ok tt)) demoOptions)
  = Throw readOnly /\
  mkdirSync (diskWorld (Throw readOnly) (Ok tt)) (js "/work/ext") = Throw readOnly.
Proof.
  assert (Hsnd : snd (@packExtension posix (diskWorld (Throw readOnly) (Ok tt))
                        demoOptions) = Throw readOnly) by reflexivity.
  split; [exact Hsnd |].
  destruct (@rejection_comes_from_outside_try posix
              (diskWorld (Throw readOnly) (Ok tt)) demoOptions readOnly Hsnd)
    as [Hc | [Hi | Hm]]; [discriminate Hc | discriminate Hi | exact Hm].
Defined.

Lemma discovery_ok (w : World) (resolvedPath : jsstring)
    (discovered : FileTable) (ignoredCount : Z) :
  discovery w resolvedPath = Ok (discovered, ignoredCount) ->
  exists patterns,
    readDxtIgnorePatterns w resolvedPath = Ok patterns /\
    getAllFilesWithCount w resolvedPath resolvedPath patterns
    = Ok (discovered, ignoredCount).
Proof.
  unfold discovery.
  destruct (readDxtIgnorePatterns w resolvedPath) as [patterns | e];
    [| discriminate].
  intros Hget. now exists patterns.
Qed.

(** ** The listing in the log *)

(** Once the discovery has returned, the log has the line
    ["Archive Contents"], then the lines of the listing, one per row and in
    the order of the rows, and then the build. *)
Lemma run_logs_listing (H : Host) (w : World) (o : PackOptions)
    (manifest : Manifest) (discovered : FileTable) (ignoredCount : Z) :
  reachesArchiveStage w o manifest ->
  discovery w (resolve (cwd w) (extensionPath o))
  = Ok (discovered, ignoredCount) ->
  exists pre post,
    fst (packExtension w o)
    = pre
      ++ LogLine (js "Archive Contents")
      :: map (fun row => LogLine (renderRow row))
           (fileListing w (resolve (cwd w) (extensionPath o)) discovered)
      ++ ZipSync discovered (mkZipOptions 9 (now w)) :: post.
Proof.
  intros Hreach Hdisc.
  destruct (reaches_run_quiet Hreach) as (pre0 & _ & Hrun).
  destruct (discovery_ok _ _ Hdisc) as (patterns & Hread & Hget).
  rewrite Hrun. cbn [fst]. unfold stageRun. rewrite Hread, Hget.
  set (resolvedPath := resolve (cwd w) (extensionPath o)).
  set (final := finalOutputPathOf w resolvedPath o).
  exists (pre0
          ++ [MkdirSync (join final (js "..")) true; ReadIgnore resolvedPath;
              Discover resolvedPath patterns;
              LogLine (packageHeader manifest)]).
  destruct (zipSync discovered (mkZipOptions 9 (now w))) as [data | e];
    [destruct (writeFileSync w final data) as [[] | e] |];
    eexists; cbn [fst]; unfold reportLog; fold resolvedPath;
    rewrite <- !app_assoc; cbn [app]; rewrite <- ?app_assoc; reflexivity.
Qed.

Lemma demoWorld_reaches (table : FileTable) (t : Date) :
  @reachesArchiveStage posix (demoWorld table t) demoOptions demoManifest.
Proof. repeat split. now left. Qed.

(** C5, as the code has it. With a comparison [localeCompare] that is total
    and transitive, in an invocation whose discovery has returned: the
    entries are sorted by their keys; between the line ["Archive Contents"]
    and the build the log has first the lines of the entries for which the
    path computed at line 144 has at most three segments, in that sorted
    order, and then one line per group, in the order of the first entry of
    each group; and when no two different keys of the discovered files
    compare as equal, an invocation from the same working directory whose
    discovery enumerates the same entries in another order logs the same
    lines. *)
Theorem listing_is_shallow_files_then_groups (H : Host) (w : World)
    (o : PackOptions) (manifest : Manifest) (discovered : FileTable)
    (ignoredCount : Z) :
  let resolvedPath := resolve (cwd w) (extensionPath o) in
  let sorted := sortEntries discovered in
  let listing :=
    map (fun entry => LogLine (renderRow (fileRowOf w resolvedPath entry)))
      (shallowOf w resolvedPath sorted)
    ++ map (fun k =>
              LogLine
                (renderRow (groupRow (k, groupOf w resolvedPath k sorted))))
         (groupKeys w resolvedPath sorted) in
  (forall a b, localeCompare a b <= 0 \/ localeCompare b a <= 0) ->
  (forall a b c,
     localeCompare a b <= 0 -> localeCompare b c <= 0 ->
     localeCompare a c <= 0) ->
  reachesArchiveStage w o manifest ->
  discovery w resolvedPath = Ok (discovered, ignoredCount) ->
  Permutation sorted discovered /\
  StronglySorted (fun a b => localeCompare (fst a) (fst b) <= 0) sorted /\
  (exists pre post,
     fst (packExtension w o)
     = pre ++ LogLine (js "Archive Contents") :: listing
       ++ ZipSync discovered (mkZipOptions 9 (now w)) :: post) /\
  (forall w' manifest' discovered' ignoredCount',
     cwd w' = cwd w ->
     reachesArchiveStage w' o manifest' ->
     discovery w' resolvedPath = Ok (discovered', ignoredCount') ->
     Permutation discovered discovered' ->
     NoDup (map fst discovered) ->
     (forall a b,
        In a (map fst discovered) -> In b (map fst discovered) ->
        localeCompare a b <= 0 -> localeCompare b a <= 0 -> a = b) ->
     exists pre post,
       fst (packExtension w' o)
       = pre ++ LogLine (js "Archive Contents") :: listing
         ++ ZipSync discovered' (mkZipOptions 9 (now w')) :: post).
Proof.
  intros resolvedPath sorted listing Htotal Htrans Hreach Hdisc.
  assert (Hlisting :
            map (fun row => LogLine (renderRow row))
              (fileListing w resolvedPath discovered)
            = listing).
  { rewrite fileListing_rows, map_app, !map_map. reflexivity. }
  split; [| split; [| split]].
  - apply sortWith_perm.
  - apply (@sortWith_sorted _
             (fun a b : jsstring * Content => localeCompare (fst a) (fst b))).
    + intros; apply Htotal.
    + intros a b c; apply Htrans.
  - destruct (run_logs_listing Hreach Hdisc) as (pre & post & Htrace).
    exists pre, post. fold resolvedPath in Htrace.
    now rewrite Hlisting in Htrace.
  - intros w' manifest' discovered' ignoredCount' Hcwd Hreach' Hdisc' Hperm
      Hnodup Hanti.
    assert (Hpath : resolve (cwd w') (extensionPath o) = resolvedPath)
      by (unfold resolvedPath; now rewrite Hcwd).
    rewrite <- Hpath in Hdisc'.
    destruct (run_logs_listing Hreach' Hdisc') as (pre & post & Htrace).
    exists pre, post. rewrite Hpath in Htrace.
    rewrite (@fileListing_cwd _ w resolvedPath w' discovered' Hcwd) in Htrace.
    unfold fileListing in Htrace.
    rewrite (sortEntries_perm_eq Htotal Htrans Hanti Hnodup Hperm) in Htrace.
    fold (fileListing w resolvedPath discovered) in Htrace.
    now rewrite Hlisting in Htrace.
Qed.

Lemma listing_is_shallow_files_then_groups_witness :
  let w := demoWorld demoFiles 1700000000000 in
  let w' := demoWorld (rev demoFiles) 1700000000000 in
  let listing :=
    [ LogLine (js "      2B manifest.json");
      LogLine (js "      8B server/main.py");
      LogLine (js "      1B server/lib/one/deep/c.py");
      LogLine (js "     11B server/lib/pkg/ [and 2 more files]") ] in
  (exists pre post,
     fst (@packExtension posix w demoOptions)
     = pre ++ LogLine (js "Archive Contents") :: listing
       ++ ZipSync demoFiles (mkZipOptions 9 1700000000000) :: post) /\
  (exists pre post,
     fst (@packExtension posix w' demoOptions)
     = pre ++ LogLine (js "Archive Contents") :: listing
       ++ ZipSync (rev demoFiles) (mkZipOptions 9 1700000000000) :: post).
Proof.
  intros w w' listing.
  destruct (@listing_is_shallow_files_then_groups posix w demoOptions
              demoManifest demoFiles 0 compareUnits_total compareUnits_trans
              (demoWorld_reaches demoFiles 1700000000000) eq_refl)
    as (_ & _ & Hlogged & Hother).
  split; [exact Hlogged |].
  apply (Hother w' demoManifest (rev demoFiles) 0 eq_refl
           (demoWorld_reaches (rev demoFiles) 1700000000000) eq_refl).
  - apply Permutation_rev.
  - vm_compute. repeat constructor; simpl; intuition discriminate.
  - intros a b _ _. apply compareUnits_antisym.
Defined.

(** C5, as the specification has it, fails: a file at the top of the
    directory is listed before a file four levels down, whatever their
    names. An invocation on a directory with [a/b/c/d.txt] and [z.txt] logs
    the line of [z.txt] first. *)
Lemma listing_not_sorted_by_path :
  let discovered :=
    [ (js "a/b/c/d.txt", BinaryContent []); (js "z.txt", BinaryContent []) ] in
  let run :=
    @packExtension posix (demoWorld discovered 1700000000000) demoOptions in
  (exists pre post,
     fst run
     = pre
       ++ LogLine (js "Archive Contents")
       :: LogLine (js "      0B z.txt")
       :: LogLine (js "      0B a/b/c/d.txt")
       :: ZipSync discovered (mkZipOptions 9 1700000000000) :: post) /\
  ~ lexLe (js "z.txt") (js "a/b/c/d.txt") /\
  ~ Sorted lexLe [js "z.txt"; js "a/b/c/d.txt"].
Proof.
  intros discovered run. split; [| split].
  - destruct (@run_logs_listing posix (demoWorld discovered 1700000000000)
                demoOptions demoManifest discovered 0
                (demoWorld_reaches discovered 1700000000000) eq_refl)
      as (pre & post & Htrace).
    exists pre, post. exact Htrace.
  - vm_compute. intros Hle. now apply Hle.
  - intros Hs. inversion Hs as [| x l _ Hhd]; subst.
    inversion Hhd as [| y l' Hle]; subst. vm_compute in Hle.
    now apply Hle.
Qed.



(** C4. The directory [/work/ext] with the files [a/b/c.txt] and
    [a/b/c/d.txt], packed from the working directory [/work]: line 144
    resolves the keys of the files, which are paths inside the extension
    directory, in the working directory and computes [../a/b/c.txt] and
    [../a/b/c/d.txt], of four and five segments. The loop puts both files
    in the group [../a/b], and the listing in the log is the one line of
    that group: [a/b/c.txt] is not listed by itself, and [a/b/c/d.txt] is
    not under [a/b/c]. Packed from inside the directory, the same files are
    grouped as their keys are: [a/b/c.txt] by itself, [a/b/c/d.txt] under
    [a/b/c]. *)
Theorem grouping_resolves_keys_in_working_directory :
  let w := outsideWorld nestedFiles 1700000000000 in
  let resolvedPath := @resolve posix (cwd w) (extensionPath outsideOptions) in
  let grouping :=
    @groupEntries posix w resolvedPath (sortEntries nestedFiles) in
  let inside :=
    @groupEntries posix (demoWorld nestedFiles 1700000000000)
      (js "/work/ext") (sortEntries nestedFiles) in
  resolvedPath = js "/work/ext" /\
  discovery w resolvedPath = Ok (nestedFiles, 0) /\
  map (relPathOf w resolvedPath) nestedFiles
  = [js "../a/b/c.txt"; js "../a/b/c/d.txt"] /\
  shallowFiles grouping = [] /\
  directoryGroups grouping
  = [(js "../a/b", mkGroup [js "../a/b/c.txt"; js "../a/b/c/d.txt"] 3)] /\
  (exists pre post,
     fst (@packExtension posix w outsideOptions)
     = pre
       ++ LogLine (js "Archive Contents")
       :: LogLine (js "      3B ../a/b/ [and 2 more files]")
       :: ZipSync nestedFiles (mkZipOptions 9 1700000000000) :: post) /\
  shallowFiles inside = [mkShallow (js "a/b/c.txt") 1] /\
  directoryGroups inside = [(js "a/b/c", mkGroup [js "a/b/c/d.txt"] 2)].
Proof.
  intros w resolvedPath grouping inside.
  split; [reflexivity |]. split; [reflexivity |].
  split; [vm_compute; reflexivity |]. split; [vm_compute; reflexivity |].
  split; [vm_compute; reflexivity |].
  split; [| split; vm_compute; reflexivity].
  assert (Hreach : @reachesArchiveStage posix w outsideOptions demoManifest)
    by (repeat split; now left).
  destruct (@run_logs_listing posix w outsideOptions demoManifest nestedFiles
              0 Hreach eq_refl) as (pre & post & Htrace).
  exists pre, post. exact Htrace.
Qed.

(** X11. The invocation returns [true] exactly when it gets to the [try]
    statement, the discovery returns, [zipSync] returns a buffer and the
    write of that buffer to the final output path returns. *)
Theorem success_exactly_when_all_steps_succeed (H : Host) (w : World)
    (o : PackOptions) :
  let resolvedPath := resolve (cwd w) (extensionPath o) in
  let finalOutputPath := finalOutputPathOf w resolvedPath o in
  snd (packExtension w o) = Ok true <->
  exists manifest discovered ignoredCount data,
    reachesArchiveStage w o manifest /\
    discovery w resolvedPath = Ok (discovered, ignoredCount) /\
    zipSync discovered (mkZipOptions 9 (now w)) = Ok data /\
    writeFileSync w finalOutputPath data = Ok tt.
Proof.
  intros resolvedPath finalOutputPath. split.
  - intros Hok. destruct (success_writes w o Hok) as [data Hin].
    destruct (write_of_run w o _ data Hin)
      as (manifest & discovered & ignoredCount & _ & _ & Hreach & Hdisc
          & Hzip & _).
    exists manifest, discovered, ignoredCount, data.
    split; [exact Hreach |]. split; [exact Hdisc |]. split; [exact Hzip |].
    rewrite (reaches_run Hreach) in Hok. cbn [snd] in Hok.
    destruct (stage_discovered w o manifest Hdisc) as (before & _ & _ & Hstage).
    fold resolvedPath in Hzip. rewrite Hzip in Hstage.
    fold resolvedPath finalOutputPath in Hstage.
    destruct (writeFileSync w finalOutputPath data) as [[] | e];
      [reflexivity |].
    rewrite Hstage in Hok. discriminate Hok.
  - intros (manifest & discovered & ignoredCount & data & Hreach & Hdisc
            & Hzip & Hwrite).
    rewrite (reaches_run Hreach). cbn [snd].
    destruct (stage_discovered w o manifest Hdisc) as (before & _ & _ & Hstage).
    rewrite Hzip in Hstage. fold resolvedPath finalOutputPath in Hstage.
    rewrite Hwrite in Hstage. now rewrite Hstage.
Qed.

Lemma success_exactly_when_all_steps_succeed_witness :
  snd (@packExtension posix (diskWorld (Ok tt) (Ok tt)) demoOptions) = Ok true.
Proof.
  apply (proj2 (@success_exactly_when_all_steps_succeed posix
                  (diskWorld (Ok tt) (Ok tt)) demoOptions)).
  destruct (@Zip.zipSync demoFiles (mkZipOptions 9 1700000000000))
    as [data | e] eqn:Hzip; [| vm_compute in Hzip; discriminate Hzip].
  exists demoManifest, demoFiles, 0, data.
  split; [repeat split; now left |]. split; [reflexivity |].
  split; [exact Hzip | reflexivity].
Defined.

(** X12. When the write of the archive throws, the invocation returns
    [false] although the write was attempted with the whole buffer: the
    write is its one write event, the error line is its last event and no
    archive details are logged. *)
Theorem write_failure_returns_false (H : Host) (w : World) (o : PackOptions)
    (manifest : Manifest) (discovered : FileTable) (ignoredCount : Z)
    (data : bytes) (e : thrown) :
  let resolvedPath := resolve (cwd w) (extensionPath o) in
  let finalOutputPath := finalOutputPathOf w resolvedPath o in
  let run := packExtension w o in
  reachesArchiveStage w o manifest ->
  discovery w resolvedPath = Ok (discovered, ignoredCount) ->
  zipSync discovered (mkZipOptions 9 (now w)) = Ok data ->
  writeFileSync w finalOutputPath data = Throw e ->
  snd run = Ok false /\
  filter isWrite (fst run) = [WriteFileSync finalOutputPath data] /\
  exists pre,
    fst run = pre ++ WriteFileSync finalOutputPath data :: errorLog e.
Proof.
  intros resolvedPath finalOutputPath run Hreach Hdisc Hzip Hwrite.
  destruct (reaches_run_quiet Hreach) as (pre0 & Hquiet & Hrun).
  destruct (stage_discovered w o manifest Hdisc) as (before & _ & Hbw & Hstage).
  rewrite Hzip in Hstage. fold resolvedPath finalOutputPath in Hstage.
  rewrite Hwrite in Hstage.
  unfold run. rewrite Hrun, Hstage. cbn [fst snd].
  split; [reflexivity |]. split.
  - rewrite filter_app, (@quiet_filter isWrite pre0 isWrite_work Hquiet).
    cbn [app filter isWrite]. rewrite filter_app, Hbw.
    cbn [app filter isWrite]. now rewrite errorLog_filter.
  - exists (pre0
            ++ MkdirSync (join finalOutputPath (js "..")) true
            :: before ++ [ZipSync discovered (mkZipOptions 9 (now w))]).
    rewrite <- !app_assoc. cbn [app]. rewrite <- !app_assoc. reflexivity.
Qed.

Lemma write_failure_returns_false_witness :
  let run := @packExtension posix (diskWorld (Ok tt) (Throw diskFull))
               demoOptions in
  snd run = Ok false /\
  exists data, filter isWrite (fst run) = [WriteFileSync (js "/work/ext/ext.dxt") data].
Proof.
  intros run.
  destruct (@Zip.zipSync demoFiles (mkZipOptions 9 1700000000000))
    as [data | e] eqn:Hzip; [| vm_compute in Hzip; discriminate Hzip].
  destruct (@write_failure_returns_false posix
              (diskWorld (Ok tt) (Throw diskFull)) demoOptions demoManifest
              demoFiles 0 data diskFull)
    as (Hres & Hwrites & _).
  - repeat split; now left.
  - reflexivity.
  - exact Hzip.
  - reflexivity.
  - split; [exact Hres |]. exists data. exact Hwrites.
Defined.

(** X13. What is thrown inside the [try] statement is reported in the last
    line the invocation logs: the message of an [Error] after
    ["ERROR: Archive error: "], a fixed line for any other value. This holds
    for the discovery, the build and the write alike. *)
Theorem thrown_error_is_last_line (H : Host) (w : World) (o : PackOptions)
    (manifest : Manifest) (e : thrown) :
  let resolvedPath := resolve (cwd w) (extensionPath o) in
  let finalOutputPath := finalOutputPathOf w resolvedPath o in
  let run := packExtension w o in
  reachesArchiveStage w o manifest ->
  (discovery w resolvedPath = Throw e \/
   exists discovered ignoredCount,
     discovery w resolvedPath = Ok (discovered, ignoredCount) /\
     (zipSync discovered (mkZipOptions 9 (now w)) = Throw e \/
      exists data,
        zipSync discovered (mkZipOptions 9 (now w)) = Ok data /\
        writeFileSync w finalOutputPath data = Throw e)) ->
  snd run = Ok false /\
  last (fst run) (LogLine [])
  = ErrorLine
      match e with
      | ErrorObject message => js "ERROR: Archive error: " ++ message
      | OtherValue => js "ERROR: Unknown archive error occurred"
      end.
Proof.
  intros resolvedPath finalOutputPath run Hreach Hthrown.
  assert (Hend : exists pre, run = (pre ++ errorLog e, Ok false)).
  { destruct (reaches_run_quiet Hreach) as (pre0 & _ & Hrun).
    unfold run. rewrite Hrun. fold resolvedPath finalOutputPath.
    set (made := MkdirSync (join finalOutputPath (js "..")) true).
    destruct Hthrown as [Hdisc | (discovered & ignoredCount & Hdisc & Hlater)].
    - unfold stageRun. unfold discovery in Hdisc.
      fold resolvedPath in Hdisc |- *.
      destruct (readDxtIgnorePatterns w resolvedPath) as [patterns | e'].
      + rewrite Hdisc. cbn [fst snd].
        exists (pre0 ++ [made; ReadIgnore resolvedPath;
                         Discover resolvedPath patterns]).
        now rewrite <- app_assoc.
      + injection Hdisc as ->. cbn [fst snd].
        exists (pre0 ++ [made; ReadIgnore resolvedPath]).
        now rewrite <- app_assoc.
    - destruct (stage_discovered w o manifest Hdisc)
        as (before & _ & _ & Hstage).
      fold resolvedPath finalOutputPath in Hstage.
      destruct Hlater as [Hzip | (data & Hzip & Hwrite)].
      + rewrite Hzip in Hstage. rewrite Hstage. cbn [fst snd].
        exists (pre0 ++ made :: before
                ++ [ZipSync discovered (mkZipOptions 9 (now w))]).
        rewrite <- !app_assoc. cbn [app]. now rewrite <- !app_assoc.
      + rewrite Hzip, Hwrite in Hstage. rewrite Hstage. cbn [fst snd].
        exists (pre0 ++ made :: before
                ++ [ZipSync discovered (mkZipOptions 9 (now w));
                    WriteFileSync finalOutputPath data]).
        rewrite <- !app_assoc. cbn [app]. now rewrite <- !app_assoc. }
  destruct Hend as [pre Hrun]. rewrite Hrun. cbn [fst snd].
  split; [reflexivity |].
  destruct e; cbn [errorLog]; apply last_last.
Qed.

Lemma thrown_error_is_last_line_witness :
  let run := @packExtension posix unreadableWorld demoOptions in
  snd run = Ok false /\
  last (fst run) (LogLine [])
  = ErrorLine (js "ERROR: Archive error: EACCES: permission denied").
Proof.
  apply (@thrown_error_is_last_line posix unreadableWorld demoOptions
           demoManifest (ErrorObject (js "EACCES: permission denied"))).
  - repeat split; now left.
  - left. reflexivity.
Defined.

(** ** The totals of the report *)

Lemma sumSizes_perm (a b : FileTable) :
  Permutation a b -> sumSizes a = sumSizes b.
Proof.
  unfold sumSizes. induction 1 as [| x a b Hp IH | x y a | a b c H1 IH1 H2 IH2];
    simpl; lia.
Qed.

(** Sorting keeps every entry, whatever the comparison does. *)
Lemma sortEntries_perm (H : Host) (discovered : FileTable) :
  Permutation (sortEntries discovered) discovered.
Proof. apply sortWith_perm. Qed.

Lemma totalUnpackedSize_sum (H : Host) (w : World) (resolvedPath : jsstring)
    (fileEntries : FileTable) :
  totalUnpackedSize (groupEntries w resolvedPath fileEntries)
  = sumSizes fileEntries.
Proof. now rewrite groupEntries_groupingOf. Qed.

Section MapMeasure.

Variable measure : Group -> Z.

Lemma groupsSum_app (a b : StringMap Group) :
  groupsSum measure (a ++ b) = groupsSum measure a + groupsSum measure b.
Proof.
  unfold groupsSum, sumZ. induction a as [| kv a IH]; simpl; [reflexivity |].
  rewrite IH. lia.
Qed.

Lemma mapSet_absent (k : jsstring) (v : Group) (m : StringMap Group) :
  mapHas k m = false -> mapSet k v m = m ++ [(k, v)].
Proof.
  unfold mapHas. induction m as [| [k' v'] m IH]; simpl; [reflexivity |].
  intros Hno. apply orb_false_iff in Hno as [Hk Hm].
  rewrite Hk. now rewrite IH.
Qed.

Lemma mapHas_last (k : jsstring) (v : Group) (m : StringMap Group) :
  mapHas k (m ++ [(k, v)]) = true.
Proof.
  unfold mapHas. rewrite existsb_app. simpl. rewrite jsstring_eqb_refl.
  apply orb_true_iff. right. reflexivity.
Qed.

Lemma mapModify_sum (k : jsstring) (f : Group -> Group) (d : Z)
    (m : StringMap Group) :
  (forall v, measure (f v) = measure v + d) ->
  mapHas k m = true ->
  groupsSum measure (mapModify k f m) = groupsSum measure m + d.
Proof.
  intros Hf. unfold mapHas, groupsSum, sumZ.
  induction m as [| [k' v'] m IH]; simpl; [discriminate |].
  destruct (jsstring_eqb k k'); simpl.
  - intros _. rewrite Hf. lia.
  - intros Hm. rewrite (IH Hm). lia.
Qed.

End MapMeasure.

Section Accounting.

Context {H : Host}.
Variable w : World.
Variable resolvedPath : jsstring.

(** One turn of the loop adds the entry's measure once: to the shallow
    files or to exactly one group. *)
Lemma groupEntry_adds (measure : Group -> Z) (shallow : Shallow -> Z)
    (g : Grouping) (entry : jsstring * Content) (d : Z) :
  measure (mkGroup [] 0) = 0 ->
  (forall grp,
     measure (mkGroup (files grp ++ [relPathOf w resolvedPath entry])
                (totalSize grp + contentSize (snd entry)))
     = measure grp + d) ->
  shallow (mkShallow (relPathOf w resolvedPath entry)
             (contentSize (snd entry))) = d ->
  let g' := groupEntry w resolvedPath g entry in
  sumZ (map shallow (shallowFiles g')) + groupsSum measure (directoryGroups g')
  = sumZ (map shallow (shallowFiles g))
    + groupsSum measure (directoryGroups g) + d.
Proof.
  intros Hempty Hgrow Hshallow. unfold groupEntry, relPathOf in *.
  destruct entry as [filePath content]. cbn [fst snd] in *.
  destruct (3 <? List.length (split sep (relative (cwd w) resolvedPath filePath)))%nat.
  - cbn [shallowFiles directoryGroups].
    set (key := joinWith (js "/")
                  (firstn 3 (split sep (relative (cwd w) resolvedPath filePath)))).
    destruct (mapHas key (directoryGroups g)) eqn:Hhas; cbn [negb].
    + rewrite mapModify_sum with (d := d); [lia | exact Hgrow | exact Hhas].
    + rewrite mapSet_absent by exact Hhas.
      rewrite mapModify_sum with (d := d);
        [| exact Hgrow | apply mapHas_last].
      rewrite groupsSum_app. unfold groupsSum at 2. simpl. rewrite Hempty. lia.
  - cbn [shallowFiles directoryGroups]. rewrite map_app.
    unfold sumZ. rewrite fold_right_app. simpl. rewrite Hshallow.
    assert (Hfold : forall l a,
               fold_right Z.add a l = fold_right Z.add 0 l + a).
    { induction l as [| x l IH]; intros a; simpl; [lia |]. rewrite IH. lia. }
    rewrite Hfold. lia.
Qed.

Lemma rows_sum (measure : Group -> Z) (shallow : Shallow -> Z)
    (row : Row -> Z) (g : Grouping) :
  (forall s, row (shallowRow s) = shallow s) ->
  (forall kv, row (groupRow kv) = measure (snd kv)) ->
  sumZ (map row (listingRows g))
  = sumZ (map shallow (shallowFiles g)) + groupsSum measure (directoryGroups g).
Proof.
  intros Hs Hg. unfold listingRows, groupsSum, sumZ.
  rewrite map_app, !map_map.
  assert (Hfold : forall l a,
             fold_right Z.add a l = fold_right Z.add 0 l + a).
  { induction l as [| x l IH]; intros a; simpl; [lia |]. rewrite IH. lia. }
  rewrite fold_right_app, Hfold. f_equal.
  - f_equal. apply map_ext. exact Hs.
  - f_equal. apply map_ext. exact Hg.
Qed.

Lemma grouping_sizes (fileEntries : FileTable) :
  sumZ (map size (shallowFiles (groupEntries w resolvedPath fileEntries)))
  + groupsSum totalSize
      (directoryGroups (groupEntries w resolvedPath fileEntries))
  = sumSizes fileEntries.
Proof.
  induction fileEntries as [| entry l IH] using rev_ind; [reflexivity |].
  rewrite groupEntries_snoc, sumSizes_app.
  rewrite groupEntry_adds with (d := contentSize (snd entry));
    try reflexivity.
  rewrite IH. unfold sumSizes. simpl. lia.
Qed.

Lemma grouping_counts (fileEntries : FileTable) :
  sumZ (map (fun _ => 1)
          (shallowFiles (groupEntries w resolvedPath fileEntries)))
  + groupsSum (fun grp => Z.of_nat (List.length (files grp)))
      (directoryGroups (groupEntries w resolvedPath fileEntries))
  = Z.of_nat (List.length fileEntries).
Proof.
  induction fileEntries as [| entry l IH] using rev_ind; [reflexivity |].
  rewrite groupEntries_snoc, length_app.
  rewrite groupEntry_adds with (d := 1).
  - rewrite IH. simpl. lia.
  - reflexivity.
  - intros grp. cbn [files]. rewrite length_app. simpl. lia.
  - reflexivity.
Qed.

(** The rows of the loop's listing add up to the entries it was given. *)
Lemma listing_accounts (fileEntries : FileTable) :
  sumZ (map rowSize (listingRows (groupEntries w resolvedPath fileEntries)))
  = sumSizes fileEntries /\
  sumZ (map (fun r => Z.of_nat (rowCount r))
          (listingRows (groupEntries w resolvedPath fileEntries)))
  = Z.of_nat (List.length fileEntries).
Proof.
  split.
  - rewrite <- grouping_sizes. apply rows_sum.
    + reflexivity.
    + intros [dir grp]. unfold groupRow.
      now destruct (List.length (files grp) =? 1)%nat.
  - rewrite <- grouping_counts. apply rows_sum.
    + reflexivity.
    + intros [dir grp]. unfold groupRow. cbn [snd].
      destruct (Nat.eqb_spec (List.length (files grp)) 1) as [Hone | Hne];
        cbn [rowCount]; [now rewrite Hone | reflexivity].
Qed.

End Accounting.

(** X14. The file listing accounts for every discovered file exactly once,
    whatever the comparison of the sort does: the sizes of its rows add up
    to the sum of the sizes of the discovered files, and its rows, a group
    row counting for the files of its group, add up to their number. *)
Theorem listing_accounts_for_every_file (H : Host) (w : World)
    (resolvedPath : jsstring) (discovered : FileTable) :
  let rows := fileListing w resolvedPath discovered in
  sumZ (map rowSize rows) = sumSizes discovered /\
  sumZ (map (fun r => Z.of_nat (rowCount r)) rows)
  = Z.of_nat (List.length discovered).
Proof.
  intros rows. unfold rows, fileListing.
  destruct (listing_accounts w resolvedPath (sortEntries discovered))
    as [Hsize Hcount].
  split.
  - rewrite Hsize. apply sumSizes_perm, sortEntries_perm.
  - rewrite Hcount. f_equal. apply Permutation_length, sortEntries_perm.
Qed.

(** X15. A successful invocation ends with the archive details: the
    file name made of the sanitized manifest name and the version (not the
    name of the file written), the size of the buffer written, the sum of
    the sizes of the discovered files, their number, the ignored count as
    the discovery gave it, and as last line the path written. *)
Theorem success_reports_totals (H : Host) (w : World) (o : PackOptions)
    (manifest : Manifest) (discovered : FileTable) (ignoredCount : Z)
    (data : bytes) :
  let resolvedPath := resolve (cwd w) (extensionPath o) in
  let finalOutputPath := finalOutputPathOf w resolvedPath o in
  let run := packExtension w o in
  reachesArchiveStage w o manifest ->
  discovery w resolvedPath = Ok (discovered, ignoredCount) ->
  zipSync discovered (mkZipOptions 9 (now w)) = Ok data ->
  writeFileSync w finalOutputPath data = Ok tt ->
  exists pre,
    fst run
    = pre
      ++ [ WriteFileSync finalOutputPath data;
           LogLine ([10%N] ++ js "Archive Details");
           LogLine (js "name: " ++ name manifest);
           LogLine (js "version: " ++ version manifest);
           LogLine (js "filename: "
                    ++ sanitizeNameForFilename unicodeLower (name manifest)
                    ++ js "-" ++ version manifest ++ js ".dxt");
           LogLine (js "package size: "
                    ++ formatFileSize (Z.of_nat (List.length data)));
           LogLine (js "unpacked size: "
                    ++ formatFileSize (sumSizes discovered));
           LogLine (js "shasum: " ++ sha1Hex data);
           LogLine (js "total files: "
                    ++ numberToString (Z.of_nat (List.length discovered)));
           LogLine (js "ignored (.dxtignore) files: "
                    ++ numberToString ignoredCount);
           LogLine ([10%N] ++ js "Output: " ++ finalOutputPath) ].
Proof.
  intros resolvedPath finalOutputPath run Hreach Hdisc Hzip Hwrite.
  destruct (reaches_run_quiet Hreach) as (pre0 & _ & Hrun).
  destruct (stage_discovered w o manifest Hdisc) as (before & _ & _ & Hstage).
  rewrite Hzip in Hstage. fold resolvedPath finalOutputPath in Hstage.
  rewrite Hwrite in Hstage.
  unfold run. rewrite Hrun, Hstage. cbn [fst].
  exists (pre0
          ++ MkdirSync (join finalOutputPath (js "..")) true
          :: before ++ [ZipSync discovered (mkZipOptions 9 (now w))]).
  unfold detailsLog. fold resolvedPath finalOutputPath.
  rewrite totalUnpackedSize_sum.
  rewrite (sumSizes_perm (sortEntries_perm H discovered)).
  rewrite (Permutation_length (sortEntries_perm H discovered)).
  rewrite <- !app_assoc. cbn [app]. rewrite <- !app_assoc. reflexivity.
Qed.

Lemma success_reports_totals_witness :
  let run := @packExtension posix (diskWorld (Ok tt) (Ok tt)) demoOptions in
  In (LogLine (js "filename: my-ext-1.2.0.dxt")) (fst run) /\
  In (LogLine (js "unpacked size: 22B")) (fst run) /\
  In (LogLine (js "total files: 5")) (fst run) /\
  exists pre data,
    fst run
    = pre
      ++ [ WriteFileSync (js "/work/ext/ext.dxt") data;
           LogLine ([10%N] ++ js "Archive Details");
           LogLine (js "name: My Ext!");
           LogLine (js "version: 1.2.0");
           LogLine (js "filename: my-ext-1.2.0.dxt");
           LogLine (js "package size: "
                    ++ formatFileSize (Z.of_nat (List.length data)));
           LogLine (js "unpacked size: 22B");
           LogLine (js "shasum: " ++ Sha1.digestHex data);
           LogLine (js "total files: 5");
           LogLine (js "ignored (.dxtignore) files: 0");
           LogLine ([10%N] ++ js "Output: " ++ js "/work/ext/ext.dxt") ].
Proof.
  intros run.
  split; [vm_compute; tauto |]. split; [vm_compute; tauto |].
  split; [vm_compute; tauto |].
  destruct (@Zip.zipSync demoFiles (mkZipOptions 9 1700000000000))
    as [data | e] eqn:Hzip; [| vm_compute in Hzip; discriminate Hzip].
  destruct (@success_reports_totals posix (diskWorld (Ok tt) (Ok tt))
              demoOptions demoManifest demoFiles 0 data)
    as [pre Htrace].
  - repeat split; now left.
  - reflexivity.
  - exact Hzip.
  - reflexivity.
  - exists pre, data. exact Htrace.
Defined.

(** X16. Once the discovery has returned, the invocation logs the package
    header, the line ["Archive Contents"] and then the lines of the file
    listing, one per row and in the order of the rows, and calls [zipSync]
    right after them with the discovered files as the discovery gave them
    (not in sorted order). *)
Theorem listing_is_logged_before_build (H : Host) (w : World)
    (o : PackOptions) (manifest : Manifest) (discovered : FileTable)
    (ignoredCount : Z) :
  let resolvedPath := resolve (cwd w) (extensionPath o) in
  let run := packExtension w o in
  reachesArchiveStage w o manifest ->
  discovery w resolvedPath = Ok (discovered, ignoredCount) ->
  exists pre post,
    fst run
    = pre
      ++ LogLine (packageHeader manifest) :: LogLine (js "Archive Contents")
      :: map (fun row => LogLine (renderRow row))
           (fileListing w resolvedPath discovered)
      ++ ZipSync discovered (mkZipOptions 9 (now w)) :: post.
Proof.
  intros resolvedPath run Hreach Hdisc.
  destruct (reaches_run_quiet Hreach) as (pre0 & _ & Hrun).
  destruct (discovery_ok _ _ Hdisc) as (patterns & Hread & Hget).
  unfold run. rewrite Hrun. cbn [fst]. unfold stageRun.
  fold resolvedPath in Hread, Hget |- *. rewrite Hread, Hget.
  set (final := finalOutputPathOf w resolvedPath o).
  exists (pre0
          ++ [MkdirSync (join final (js "..")) true; ReadIgnore resolvedPath;
              Discover resolvedPath patterns]).
  destruct (zipSync discovered (mkZipOptions 9 (now w))) as [data | e];
    [destruct (writeFileSync w final data) as [[] | e] |];
    eexists; cbn [fst]; unfold reportLog; fold resolvedPath;
    rewrite <- !app_assoc; cbn [app]; rewrite <- ?app_assoc; reflexivity.
Qed.

Lemma listing_is_logged_before_build_witness :
  let run := @packExtension posix (diskWorld (Ok tt) (Ok tt)) demoOptions in
  exists pre post,
    fst run
    = pre
      ++ LogLine (packageHeader demoManifest) :: LogLine (js "Archive Contents")
      :: map (fun row => LogLine (renderRow row))
           (@fileListing posix (diskWorld (Ok tt) (Ok tt)) (js "/work/ext")
              demoFiles)
      ++ ZipSync demoFiles (mkZipOptions 9 1700000000000) :: post.
Proof.
  apply (@listing_is_logged_before_build posix (diskWorld (Ok tt) (Ok tt))
           demoOptions demoManifest demoFiles 0).
  - repeat split; now left.
  - reflexivity.
Defined.

(** ** Splitting and joining paths *)

Lemma split_nonempty (c : N) (s : jsstring) : split c s <> [].
Proof.
  destruct s as [| x r]; simpl; [discriminate |].
  destruct (x =? c)%N; [discriminate |].
  destruct (split c r); discriminate.
Qed.

(** Joining the parts of a split with the separator gives the string
    back. *)
Lemma joinWith_split (c : N) (s : jsstring) : joinWith [c] (split c s) = s.
Proof.
  induction s as [| x r IH]; [reflexivity |].
  simpl. pose proof (split_nonempty c r) as Hnil.
  destruct (split c r) as [| p ps]; [contradiction |].
  destruct (N.eqb_spec x c) as [-> | Hne].
  - change (joinWith [c] ([] :: p :: ps))
      with ([] ++ [c] ++ joinWith [c] (p :: ps)).
    now rewrite IH.
  - destruct ps as [| q qs].
    + change (joinWith [c] [x :: p]) with (x :: p).
      change (joinWith [c] [p]) with p in IH. now rewrite IH.
    + change (joinWith [c] ((x :: p) :: q :: qs))
        with (x :: (p ++ [c] ++ joinWith [c] (q :: qs))).
      change (joinWith [c] (p :: q :: qs))
        with (p ++ [c] ++ joinWith [c] (q :: qs)) in IH.
      now rewrite IH.
Qed.

Lemma joinWith_app (d : jsstring) (a b : list jsstring) :
  a <> [] -> b <> [] ->
  joinWith d (a ++ b) = joinWith d a ++ d ++ joinWith d b.
Proof.
  intros Ha Hb. induction a as [| p a IH]; [contradiction |].
  destruct a as [| q a'].
  - destruct b as [| r b']; [contradiction | reflexivity].
  - change (joinWith d ((p :: q :: a') ++ b))
      with (p ++ d ++ joinWith d ((q :: a') ++ b)).
    rewrite IH by discriminate.
    change (joinWith d (p :: q :: a')) with (p ++ d ++ joinWith d (q :: a')).
    now rewrite <- !app_assoc.
Qed.

(** X17. Where the path separator is ["/"] and the path computed at line
    144 for a file is the key of the file (its path inside the extension
    directory, as when the invocation is made from inside that directory),
    the key of the group of a file of more than three segments is the path
    of an ancestor directory of the file: the key of the file is the key of
    the group, a ["/"] and the rest of the segments of the file, of which
    there is at least one. *)
Theorem group_key_is_ancestor_directory (H : Host) (w : World)
    (resolvedPath : jsstring) (entry : jsstring * Content) :
  sep = 47%N ->
  relPathOf w resolvedPath entry = fst entry ->
  isDeep w resolvedPath entry = true ->
  groupKeyOf w resolvedPath entry
  = joinWith (js "/") (firstn 3 (split 47 (fst entry))) /\
  skipn 3 (split 47 (fst entry)) <> [] /\
  fst entry
  = groupKeyOf w resolvedPath entry ++ js "/"
    ++ joinWith (js "/") (skipn 3 (split 47 (fst entry))).
Proof.
  intros Hsep Hkey Hdeep. unfold isDeep in Hdeep. apply Nat.ltb_lt in Hdeep.
  unfold groupKeyOf. unfold segmentsOf in *. rewrite Hsep, Hkey in *.
  set (segs := split 47 (fst entry)) in *.
  assert (Hfirst : firstn 3 segs <> []).
  { intros Hnil. apply (f_equal (@List.length jsstring)) in Hnil.
    rewrite length_firstn in Hnil. cbn [List.length] in Hnil. lia. }
  assert (Hrest : skipn 3 segs <> []).
  { intros Hnil. apply (f_equal (@List.length jsstring)) in Hnil.
    rewrite length_skipn in Hnil. cbn [List.length] in Hnil. lia. }
  split; [reflexivity |]. split; [exact Hrest |].
  rewrite <- joinWith_app by assumption. rewrite firstn_skipn.
  unfold segs. change (js "/") with [47%N]. symmetry. apply joinWith_split.
Qed.

Lemma group_key_is_ancestor_directory_witness :
  let w := demoWorld demoFiles 0 in
  let entry := (js "server/lib/pkg/mod/a.py", BinaryContent (js "a = 1")) in
  @groupKeyOf posix w (js "/work/ext") entry = js "server/lib/pkg" /\
  fst entry
  = @groupKeyOf posix w (js "/work/ext") entry ++ js "/"
    ++ joinWith (js "/") (skipn 3 (split 47 (fst entry))).
Proof.
  intros w entry. split; [reflexivity |].
  apply (@group_key_is_ancestor_directory posix w (js "/work/ext") entry);
    reflexivity.
Defined.

(** X18. With the directory and its manifest there: an invalid manifest
    ends the invocation with [false] after one error line; a valid manifest
    that fails to parse ends it with [false] after the error line and, when
    an [Error] was thrown, a line with its message. Nothing else is done
    in either case. *)
Theorem manifest_failure_stops (H : Host) (w : World) (o : PackOptions) :
  let resolvedPath := resolve (cwd w) (extensionPath o) in
  let manifestPath := join resolvedPath (js "manifest.json") in
  let run := packExtension w o in
  existsSync w resolvedPath = true ->
  isDirectory w resolvedPath = true ->
  existsSync w manifestPath = true ->
  (validateManifest w manifestPath = false ->
   run
   = ([ LogLine (js "Validating manifest...");
        ErrorLine (js "ERROR: Cannot pack extension with invalid manifest") ],
      Ok false)) /\
  (validateManifest w manifestPath = true ->
   (forall message,
      readManifest w manifestPath = Throw (ErrorObject message) ->
      run
      = ([ LogLine (js "Validating manifest...");
           ErrorLine (js "ERROR: Failed to parse manifest.json");
           ErrorLine (js "  " ++ message) ],
         Ok false)) /\
   (readManifest w manifestPath = Throw OtherValue ->
    run
    = ([ LogLine (js "Validating manifest...");
         ErrorLine (js "ERROR: Failed to parse manifest.json") ],
       Ok false))).
Proof.
  intros resolvedPath manifestPath run Hdir Hisdir Hmanifest.
  unfold run. rewrite packExtension_packRun.
  unfold packRun, preludeRun, manifestCheckRun.
  fold resolvedPath. fold manifestPath.
  rewrite Hdir, Hisdir, Hmanifest. cbn [negb orb app].
  split.
  - now intros ->.
  - intros ->. cbn [negb]. split.
    + intros message Hread. now rewrite Hread.
    + intros Hread. now rewrite Hread.
Qed.

Lemma manifest_failure_stops_witness :
  @packExtension posix
    (manifestWorld true (Throw (ErrorObject (js "Required: version"))))
    demoOptions
  = ([ LogLine (js "Validating manifest...");
       ErrorLine (js "ERROR: Failed to parse manifest.json");
       ErrorLine (js "  Required: version") ],
     Ok false).
Proof.
  apply (proj2 (@manifest_failure_stops posix
                  (manifestWorld true (Throw (ErrorObject (js "Required: version"))))
                  demoOptions eq_refl eq_refl eq_refl));
    reflexivity.
Defined.
